(** * script.js: client-side behaviour of the portfolio page

    A shallow embedding of [src/script.js] and the properties its
    specification states about it.

    - JavaScript strings that come from the user (form fields) are lists of
      UTF-16 code units ([list N]); string literals of the source are Rocq
      strings.
    - A [RegExp] is a small regular-expression syntax tree matched by
      Brzozowski derivatives.
    - The DOM is reduced to what the script reads and writes: class lists,
      the children of [document.body], the inline style of the notification
      elements, the timer queue of [setTimeout] and the values of the
      contact form.
    - A handler that can dereference [null] returns in the [result] monad. *)

From Stdlib Require Import ZArith QArith.
From stdpp Require Import gmap strings list.

Open Scope Z_scope.

(* ===================================================================== *)
(** ** JavaScript values used by the script *)
(* ===================================================================== *)

(** A string value held by a form control: UTF-16 code units. *)
Definition js_string : Type := list N.

(** An ASCII literal as code units. *)
Definition lit (s : string) : js_string :=
  map Ascii.N_of_ascii (String.list_ascii_of_string s).

(** Outcome of running a handler: it returns, or a [TypeError] escapes
    (property access on [null]). *)
Inductive result (A : Type) : Type :=
  | Ok (a : A)
  | TypeError (what : string).
Arguments Ok {A} a.
Arguments TypeError {A} what.

Definition bind {A B} (m : result A) (k : A -> result B) : result B :=
  match m with
  | Ok a => k a
  | TypeError w => TypeError w
  end.

Notation "'let!' x ':=' m 'in' k" := (bind m (fun x => k))
  (at level 10, x name, m at level 100, k at level 200).

(** [o.prop] where [o] may be [null]. *)
Definition deref {A} (what : string) (o : option A) : result A :=
  match o with
  | Some a => Ok a
  | None => TypeError what
  end.

(* ===================================================================== *)
(** ** Regular expressions ([RegExp.prototype.test]) *)
(* ===================================================================== *)

Inductive regex : Type :=
  | Void
  | Eps
  | Class (p : N -> bool)
  | Cat (r1 r2 : regex)
  | Alt (r1 r2 : regex)
  | Star (r : regex).

(** [r+] *)
Definition Plus (r : regex) : regex := Cat r (Star r).

Fixpoint nullable (r : regex) : bool :=
  match r with
  | Void => false
  | Eps => true
  | Class _ => false
  | Cat r1 r2 => nullable r1 && nullable r2
  | Alt r1 r2 => nullable r1 || nullable r2
  | Star _ => true
  end.

Fixpoint deriv (c : N) (r : regex) : regex :=
  match r with
  | Void => Void
  | Eps => Void
  | Class p => if p c then Eps else Void
  | Cat r1 r2 =>
      if nullable r1
      then Alt (Cat (deriv c r1) r2) (deriv c r2)
      else Cat (deriv c r1) r2
  | Alt r1 r2 => Alt (deriv c r1) (deriv c r2)
  | Star r1 => Cat (deriv c r1) (Star r1)
  end.

(** [/^r$/.test(s)]: without the [m] flag [^] and [$] are the two ends of
    the input, so the test is a match of the whole string. *)
Fixpoint test_anchored (r : regex) (s : js_string) : bool :=
  match s with
  | [] => nullable r
  | c :: s' => test_anchored (deriv c r) s'
  end.

(** The language of a regular expression. *)
Inductive Matches : regex -> js_string -> Prop :=
  | MEps : Matches Eps []
  | MClass p c : p c = true -> Matches (Class p) [c]
  | MCat r1 r2 s1 s2 :
      Matches r1 s1 -> Matches r2 s2 -> Matches (Cat r1 r2) (s1 ++ s2)
  | MAltL r1 r2 s : Matches r1 s -> Matches (Alt r1 r2) s
  | MAltR r1 r2 s : Matches r2 s -> Matches (Alt r1 r2) s
  | MStarNil r : Matches (Star r) []
  | MStarCons r s1 s2 :
      Matches r s1 -> Matches (Star r) s2 -> Matches (Star r) (s1 ++ s2).

(* ===================================================================== *)
(** ** Validator: [is_valid_email] *)
(* ===================================================================== *)

(** The code units matched by [\s]: the ECMAScript [WhiteSpace] and
    [LineTerminator] productions. *)
Definition is_js_space (c : N) : bool :=
  match c with
  | 9 | 10 | 11 | 12 | 13 | 32 | 160 | 5760
  | 8192 | 8193 | 8194 | 8195 | 8196 | 8197 | 8198 | 8199 | 8200 | 8201
  | 8202 | 8232 | 8233 | 8239 | 8287 | 12288 | 65279 => true
  | _ => false
  end%N.

Definition code_at : N := 64%N.   (* '@' *)
Definition code_dot : N := 46%N.  (* '.' *)

(** [[^\s@]] *)
Definition not_space_at (c : N) : bool :=
  negb (is_js_space c) && negb (N.eqb c code_at).

(** [/^[^\s@]+@[^\s@]+\.[^\s@]+$/] *)
Definition email_regex : regex :=
  Cat (Plus (Class not_space_at))
   (Cat (Class (N.eqb code_at))
    (Cat (Plus (Class not_space_at))
     (Cat (Class (N.eqb code_dot))
      (Plus (Class not_space_at))))).

Definition is_valid_email (email : js_string) : bool :=
  test_anchored email_regex email.

(** The pattern in the words of the specification: one or more
    non-whitespace-non-@ characters, [@], one or more such characters, [.],
    one or more such characters, and nothing before or after. *)
Definition email_shape (s : js_string) : Prop :=
  exists u v w : js_string,
    s = u ++ [code_at] ++ v ++ [code_dot] ++ w
    /\ u <> [] /\ v <> [] /\ w <> []
    /\ Forall (fun c => not_space_at c = true) u
    /\ Forall (fun c => not_space_at c = true) v
    /\ Forall (fun c => not_space_at c = true) w.

(** [String.prototype.trim] leaves nothing: the value is made of white
    space and line terminators only (the set [\s] matches). *)
Definition blank (s : js_string) : bool := forallb is_js_space s.

(* ===================================================================== *)
(** ** DOM: class lists *)
(* ===================================================================== *)

(** The tokens of an element's [classList], in order. *)
Definition class_list : Type := list string.

Definition class_contains (c : string) (l : class_list) : bool :=
  existsb (String.eqb c) l.

Definition class_add (c : string) (l : class_list) : class_list :=
  if class_contains c l then l else l ++ [c].

Definition class_remove (c : string) (l : class_list) : class_list :=
  List.filter (fun d => negb (String.eqb c d)) l.

Definition class_toggle (c : string) (l : class_list) : class_list :=
  if class_contains c l then class_remove c l else l ++ [c].

(** ASCII white space, the separators of a [class] attribute. *)
Definition is_ascii_ws (c : Ascii.ascii) : bool :=
  match Ascii.N_of_ascii c with
  | 9 | 10 | 12 | 13 | 32 => true
  | _ => false
  end%N.

Definition flush (cur : string) : list string :=
  match cur with
  | EmptyString => []
  | _ => [cur]
  end.

(** Splitting [className] into its tokens. *)
Fixpoint split_ws (cur : string) (s : string) : list string :=
  match s with
  | EmptyString => flush cur
  | String c r =>
      if is_ascii_ws c
      then flush cur ++ split_ws EmptyString r
      else split_ws (cur +:+ String c EmptyString) r
  end.

Definition class_tokens (class_name : string) : class_list :=
  split_ws EmptyString class_name.

(* ===================================================================== *)
(** ** DOM: the notification elements, [document.body] and timers *)
(* ===================================================================== *)

(** What the script sets on the [div] it creates: [className], the message
    interpolated into [innerHTML] (next to the close button), the
    [background] declaration of [style.cssText] and [style.transform].
    The message is text: the three call sites pass literals without
    markup, so the [div] is the only element the call adds. *)
Record element : Type := Element {
  className : string;
  message : string;
  background : string;
  transform : string;
}.

(** The closures handed to [setTimeout]; each captures the [notification]
    element of its call by identity. *)
Inductive callback : Type :=
  | AnimateIn (n : nat)     (* () => notification.style.transform = 'translateX(0)' *)
  | RemoveEl (n : nat)      (* () => notification.remove() *)
  | AutoDismiss (n : nat).  (* the 5000ms callback *)

Definition timer : Type := (Z * callback)%type.

Record page : Type := Page {
  body : list nat;               (* children of document.body, document order *)
  heap : gmap nat element;       (* element objects by identity *)
  timers : list timer;           (* pending timeouts: due time, callback *)
  clock : Z;                     (* milliseconds *)
  next_id : nat;                 (* identity of the next created element *)
  close_listeners : gset nat;    (* elements whose close button has the click listener *)
}.

Definition with_body (b : list nat) (p : page) : page :=
  Page b (heap p) (timers p) (clock p) (next_id p) (close_listeners p).
Definition with_heap (h : gmap nat element) (p : page) : page :=
  Page (body p) h (timers p) (clock p) (next_id p) (close_listeners p).
Definition with_timers (t : list timer) (p : page) : page :=
  Page (body p) (heap p) t (clock p) (next_id p) (close_listeners p).
Definition with_clock (c : Z) (p : page) : page :=
  Page (body p) (heap p) (timers p) c (next_id p) (close_listeners p).

(** The element matches the selector [.notification]. *)
Definition has_notification_class (e : element) : bool :=
  class_contains "notification" (class_tokens (className e)).

Definition is_notification (p : page) (n : nat) : bool :=
  match heap p !! n with
  | Some e => has_notification_class e
  | None => false
  end.

(** [document.querySelector('.notification')]: the first match in document
    order, or [null]. *)
Definition query_notification (p : page) : option nat :=
  List.find (is_notification p) (body p).

(** All attached elements matching [.notification]. *)
Definition notifications (p : page) : list nat :=
  List.filter (is_notification p) (body p).

(** [el.parentNode] is not [null]. *)
Definition parentNode (n : nat) (p : page) : bool :=
  existsb (Nat.eqb n) (body p).

(** [el.remove()]: detaches the element; nothing happens when it has no
    parent. *)
Definition element_remove (n : nat) (p : page) : page :=
  with_body (List.filter (fun m => negb (Nat.eqb n m)) (body p)) p.

(** [el.style.transform = t] *)
Definition set_transform (n : nat) (t : string) (p : page) : page :=
  with_heap (alter (fun e => Element (className e) (message e) (background e) t)
                   n (heap p)) p.

(** [setTimeout(cb, delay)] *)
Definition set_timeout (cb : callback) (delay : Z) (p : page) : page :=
  with_timers (timers p ++ [(clock p + delay, cb)]) p.

(** [document.createElement('div')] followed by the assignments to
    [className], [innerHTML] and [style.cssText]. *)
Definition create_element (e : element) (p : page) : nat * page :=
  (next_id p,
   Page (body p) (<[next_id p := e]> (heap p)) (timers p) (clock p)
        (S (next_id p)) (close_listeners p)).

(** [document.body.appendChild(el)] *)
Definition append_child (n : nat) (p : page) : page :=
  with_body (body p ++ [n]) p.

(** [close_button.addEventListener('click', ...)] *)
Definition add_close_listener (n : nat) (p : page) : page :=
  Page (body p) (heap p) (timers p) (clock p) (next_id p)
       ({[n]} ∪ close_listeners p).

(* ===================================================================== *)
(** ** NotificationCenter: [show_notification] *)
(* ===================================================================== *)

Definition color_success : string := "#10b981".
Definition color_other : string := "#ef4444".

(** [type === 'success' ? '#10b981' : '#ef4444'] *)
Definition notification_background (type : string) : string :=
  if String.eqb type "success" then color_success else color_other.

(** [`notification notification-${type}`] *)
Definition notification_class_name (type : string) : string :=
  "notification notification-" +:+ type.

Definition off_screen : string := "translateX(100%)".
Definition on_screen : string := "translateX(0)".

(** The click listener of the close button of element [n]. *)
Definition close_click (n : nat) (p : page) : page :=
  let p := set_transform n off_screen p in
  set_timeout (RemoveEl n) 300 p.

(** The callback of the 5000ms timeout of element [n]. *)
Definition auto_dismiss (n : nat) (p : page) : page :=
  if parentNode n p then
    let p := set_transform n off_screen p in
    set_timeout (RemoveEl n) 300 p
  else p.

(** [show_notification(message, type)], for a message that is text. The
    source interpolates the message into [innerHTML]: of a message without
    [<] the parser makes a text node, the close button found two lines
    later is the one of the template, and the call runs to its end as
    below. A message that carries markup is outside this definition (it can
    hide the button, so that the call stops at [addEventListener] before the
    5000ms timer is set, or bring a node or handlers of its own); the
    properties that depend on the close button or on that timer are stated
    for messages that [markup_free] accepts. *)
Definition show_notification (msg type : string) (p : page) : page :=
  (* Remove existing notifications *)
  let p :=
    match query_notification p with
    | Some existing_notification => element_remove existing_notification p
    | None => p
    end in
  (* Create notification element, add styles *)
  let '(notification, p) :=
    create_element
      (Element (notification_class_name type) msg
               (notification_background type) off_screen) p in
  (* Add to page *)
  let p := append_child notification p in
  (* Animate in *)
  let p := set_timeout (AnimateIn notification) 100 p in
  (* Setup close button *)
  let p := add_close_listener notification p in
  (* Auto remove after 5 seconds *)
  set_timeout (AutoDismiss notification) 5000 p.

(** Running a timer callback. *)
Definition fire (cb : callback) (p : page) : page :=
  match cb with
  | AnimateIn n => set_transform n on_screen p
  | RemoveEl n => element_remove n p
  | AutoDismiss n => auto_dismiss n p
  end.

(** A click on the close button of element [n]: the listener runs when
    [show_notification] registered one on it. *)
Definition click_close_button (n : nat) (p : page) : page :=
  if bool_decide (n ∈ close_listeners p) then close_click n p else p.

(** The pending timer that fires next: the earliest due time, and among
    equal due times the one registered first. *)
Fixpoint pick (ts : list timer) : option (timer * list timer) :=
  match ts with
  | [] => None
  | t :: ts' =>
      match pick ts' with
      | None => Some (t, [])
      | Some (m, rest) =>
          if fst t <=? fst m then Some (t, ts') else Some (m, t :: rest)
      end
  end.

(** Each [AutoDismiss] may schedule one [RemoveEl]; the other callbacks
    schedule nothing. *)
Definition callback_weight (cb : callback) : nat :=
  match cb with
  | AutoDismiss _ => 2
  | _ => 1
  end.

Definition timers_weight (ts : list timer) : nat :=
  list_sum (map (fun t => callback_weight (snd t)) ts).

(** The event loop up to time [until]: fire the due timers in order, each
    at its due time. *)
Fixpoint run_timers (fuel : nat) (until : Z) (p : page) : page :=
  match fuel with
  | O => with_clock until p
  | S fuel' =>
      match pick (timers p) with
      | Some ((due, cb), rest) =>
          if due <=? until
          then run_timers fuel' until
                 (fire cb (with_clock (Z.max (clock p) due) (with_timers rest p)))
          else with_clock until p
      | None => with_clock until p
      end
  end.

(** [dt] milliseconds pass. *)
Definition advance (dt : N) (p : page) : page :=
  run_timers (timers_weight (timers p)) (clock p + Z.of_N dt) p.

(** What can happen to the notification slot. *)
Inductive event : Type :=
  | ShowCall (msg type : string)
  | CloseClick (n : nat)
  | Advance (dt : N).

Definition step (p : page) (e : event) : page :=
  match e with
  | ShowCall msg type => show_notification msg type p
  | CloseClick n => click_close_button n p
  | Advance dt => advance dt p
  end.

Definition run_events (p : page) (es : list event) : page :=
  fold_left step es p.

(** A document without notification and without pending timers. *)
Definition empty_page : page := Page [] ∅ [] 0 0 ∅.

(** The element a timer callback captured. *)
Definition callback_target (cb : callback) : nat :=
  match cb with
  | AnimateIn n | RemoveEl n | AutoDismiss n => n
  end.

(** Identities are handed out in order: every attached element, every
    element a pending timer captured and every element with a close
    listener was created before [next_id]. *)
Definition fresh_ids (p : page) : Prop :=
  Forall (fun n => (n < next_id p)%nat) (body p)
  /\ Forall (fun t => (callback_target (snd t) < next_id p)%nat) (timers p)
  /\ (forall n, n ∈ close_listeners p -> (n < next_id p)%nat).

(** The page state the notification slot is meant to be in. *)
Definition page_ok (p : page) : Prop :=
  fresh_ids p /\ (length (notifications p) <= 1)%nat.

(** [p'] comes from [p] by detaching elements, restyling them, moving the
    clock and changing the timer queue. *)
Definition kept (p p' : page) : Prop :=
  next_id p' = next_id p
  /\ close_listeners p' = close_listeners p
  /\ (forall m, is_notification p' m = is_notification p m)
  /\ sublist (body p') (body p).

(** The notification [n] is attached and nothing pending detaches it
    before [deadline]: no timer removes it, and its automatic dismissal is
    not due earlier. *)
Definition alone (n : nat) (deadline : Z) (p : page) : Prop :=
  n ∈ body p
  /\ is_notification p n = true
  /\ Forall (fun t => snd t <> RemoveEl n
                      /\ (snd t = AutoDismiss n -> deadline <= fst t))
            (timers p).

(** Events during which the notification [n] is left alone: no further
    call of [show_notification], no activation of the close button of [n],
    and less than [budget] milliseconds pass in total. *)
Fixpoint undisturbed (n : nat) (budget : Z) (es : list event) : Prop :=
  match es with
  | [] => True
  | ShowCall _ _ :: _ => False
  | CloseClick m :: es' => m <> n /\ undisturbed n budget es'
  | Advance dt :: es' =>
      Z.of_N dt < budget /\ undisturbed n (budget - Z.of_N dt) es'
  end.

(* ===================================================================== *)
(** ** FormController: the [submit] listener of [setup_form_handling] *)
(* ===================================================================== *)

(** A form control: its current value and the value [reset()] restores,
    the one the markup declares. *)
Record control : Type := Control {
  value : js_string;
  defaultValue : js_string;
}.

(** The contact form: its controls named [name], [email] and [message];
    [None] when the form has no control of that name. *)
Record form : Type := Form {
  name_control : option control;
  email_control : option control;
  message_control : option control;
}.

(** [formData.get(k)]: the value, or [null]. *)
Definition formdata_get (c : option control) : option js_string :=
  value <$> c.

(** [!v] for a string or [null]. *)
Definition js_not (v : option js_string) : bool :=
  match v with
  | None => true
  | Some [] => true
  | Some (_ :: _) => false
  end.

(** [String(v)], the coercion [RegExp.prototype.test] applies. *)
Definition js_to_string (v : option js_string) : js_string :=
  match v with
  | Some s => s
  | None => lit "null"
  end.

(** [form.reset()] *)
Definition reset_control (c : control) : control :=
  Control (defaultValue c) (defaultValue c).

Definition form_reset (f : form) : form :=
  Form (reset_control <$> name_control f)
       (reset_control <$> email_control f)
       (reset_control <$> message_control f).

Definition msg_fill_in : string := "Please fill in all fields".
Definition msg_bad_email : string := "Please enter a valid email address".
Definition msg_thanks : string :=
  "Thank you for your message! I'll get back to you soon.".

(** The listener, after [e.preventDefault()]. *)
Definition submit_listener (f : form) (p : page) : form * page :=
  let name := formdata_get (name_control f) in
  let email := formdata_get (email_control f) in
  let message := formdata_get (message_control f) in
  (* Basic validation *)
  if js_not name || js_not email || js_not message then
    (f, show_notification msg_fill_in "error" p)
  else if negb (is_valid_email (js_to_string email)) then
    (f, show_notification msg_bad_email "error" p)
  else
    let p := show_notification msg_thanks "success" p in
    (form_reset f, p).

(** The markup declares no initial value for any control of the form. *)
Definition no_default_values (f : form) : Prop :=
  forall c, (name_control f = Some c \/ email_control f = Some c
             \/ message_control f = Some c) -> defaultValue c = [].

(** Every control of the form is empty. *)
Definition form_cleared (f : form) : Prop :=
  forall c, (name_control f = Some c \/ email_control f = Some c
             \/ message_control f = Some c) -> value c = [].

(** A field counts as empty under a trimming check: absent, or nothing but
    white space. *)
Definition empty_after_trim (v : option js_string) : bool :=
  match v with
  | None => true
  | Some s => blank s
  end.

(* ===================================================================== *)
(** ** NavigationController *)
(* ===================================================================== *)

(** The two elements looked up when the script loads; [None] is [null]. *)
Record nav : Type := Nav {
  navToggle : option class_list;
  navMenu : option class_list;
  innerWidth : Z;
}.

(** [setup_mobile_navigation] registers its three listeners unless
    [!navToggle || !navMenu]. *)
Definition setup_mobile_navigation (s : nav) : bool :=
  match navToggle s, navMenu s with
  | Some _, Some _ => true
  | _, _ => false
  end.

(** [navToggle.addEventListener('click', ...)] *)
Definition toggle_listener (s : nav) : result nav :=
  let! t := deref "navToggle" (navToggle s) in
  let! m := deref "navMenu" (navMenu s) in
  Ok (Nav (Some (class_toggle "active" t)) (Some (class_toggle "active" m))
          (innerWidth s)).

(** [link.addEventListener('click', ...)] *)
Definition link_listener (s : nav) : result nav :=
  let! t := deref "navToggle" (navToggle s) in
  let! m := deref "navMenu" (navMenu s) in
  Ok (Nav (Some (class_remove "active" t)) (Some (class_remove "active" m))
          (innerWidth s)).

(** [document.addEventListener('click', ...)]; the two booleans are
    [navToggle.contains(event.target)] and [navMenu.contains(event.target)]. *)
Definition document_listener (in_toggle in_menu : bool) (s : nav) : result nav :=
  let! t := deref "navToggle" (navToggle s) in
  let! m := deref "navMenu" (navMenu s) in
  if negb in_toggle && negb in_menu then
    Ok (Nav (Some (class_remove "active" t)) (Some (class_remove "active" m))
            (innerWidth s))
  else Ok s.

(** [window.addEventListener('resize', ...)], registered when the script
    loads. *)
Definition resize_listener (s : nav) : result nav :=
  if innerWidth s >? 768 then
    let! t := deref "navToggle" (navToggle s) in
    let! m := deref "navMenu" (navMenu s) in
    Ok (Nav (Some (class_remove "active" t)) (Some (class_remove "active" m))
            (innerWidth s))
  else Ok s.

(** The events the controller listens to. A click is described by where
    its target lies; the toggle button and the navigation links are not
    nested in each other. *)
Inductive nav_event : Type :=
  | ToggleClick                    (* inside the toggle button *)
  | NavLinkClick (in_menu : bool)  (* on a navigation link *)
  | OtherClick (in_menu : bool)    (* anywhere else *)
  | Resize (width : Z).            (* the viewport now has this width *)

(** Dispatch: the listeners on the path of the event run in bubbling
    order. *)
Definition nav_handle (s : nav) (e : nav_event) : result nav :=
  match e with
  | ToggleClick =>
      if setup_mobile_navigation s then
        let! s := toggle_listener s in document_listener true false s
      else Ok s
  | NavLinkClick in_menu =>
      if setup_mobile_navigation s then
        let! s := link_listener s in document_listener false in_menu s
      else Ok s
  | OtherClick in_menu =>
      if setup_mobile_navigation s then document_listener false in_menu s
      else Ok s
  | Resize width =>
      resize_listener (Nav (navToggle s) (navMenu s) width)
  end.

(** The menu is open: [navMenu] carries the class [active]. *)
Definition menu_open (s : nav) : bool :=
  match navMenu s with
  | Some m => class_contains "active" m
  | None => false
  end.

(* ===================================================================== *)
(** ** ScrollEffectsController: the header flag *)
(* ===================================================================== *)

(** [y > x] on numbers. *)
Definition Qgtb (y x : Q) : bool := negb (Qle_bool y x).

(** The [scroll] listener of [setup_scroll_effects]; [header] is the result
    of [document.querySelector('.header')]. *)
Definition scroll_listener (scrollY : Q) (header : option class_list)
  : result class_list :=
  if Qgtb scrollY 100 then
    let! h := deref "header" header in Ok (class_add "scrolled" h)
  else
    let! h := deref "header" header in Ok (class_remove "scrolled" h).

(* ===================================================================== *)
(** ** Project links *)
(* ===================================================================== *)

Definition msg_project_links : string :=
  "Project links will be updated with actual URLs".

(** The [click] listener of a [.project-link]; [href] is
    [this.getAttribute('href')], [None] when the attribute is missing.
    Returns whether [e.preventDefault()] was called. *)
Definition project_link_listener (href : option js_string) (p : page)
  : bool * page :=
  if bool_decide (href = Some (lit "#")) then
    (true, show_notification msg_project_links "info" p)
  else (false, p).

(* ===================================================================== *)
(** ** Observations *)
(* ===================================================================== *)

(** The state of the menu after an event, when the dispatch returns. *)
Definition menu_after (s : nav) (e : nav_event) : option bool :=
  match nav_handle s e with
  | Ok s' => Some (menu_open s')
  | TypeError _ => None
  end.

(** The header's [scrolled] flag after the listener ran, when it returns. *)
Definition header_scrolled (r : result class_list) : option bool :=
  match r with
  | Ok h => Some (class_contains "scrolled" h)
  | TypeError _ => None
  end.


(* ===================================================================== *)
(** ** ScrollEffectsController: the fade-in observer *)
(* ===================================================================== *)

(** An [IntersectionObserverEntry]: the observed element, by identity, and
    whether it now intersects the trigger region. *)
Record entry : Type := Entry {
  target : nat;
  isIntersecting : bool;
}.

(** The callback handed to [new IntersectionObserver(...)], on the class
    lists of the observed elements:
    [entries.forEach(entry => { if (entry.isIntersecting)
    entry.target.classList.add('animate-in') })]. *)
Definition observer_callback (entries : list entry)
    (elements : gmap nat class_list) : gmap nat class_list :=
  fold_left
    (fun els e =>
       if isIntersecting e
       then alter (class_add "animate-in") (target e) els
       else els)
    entries elements.

(** Some entry reports the element [m] as intersecting. *)
Definition intersected (m : nat) (entries : list entry) : bool :=
  existsb (fun e => isIntersecting e && Nat.eqb (target e) m) entries.

(* ===================================================================== *)
(** ** [add_loading_state] *)
(* ===================================================================== *)

(** What the function reads and writes on a button. *)
Record button : Type := Button {
  textContent : js_string;
  disabled : bool;
}.

Definition loading_text : js_string := lit "Loading...".

(** [add_loading_state(button)]: the button after the call, and the
    [original_text] the returned closure captured. *)
Definition add_loading_state (b : button) : button * js_string :=
  let original_text := textContent b in
  (Button loading_text true, original_text).

(** The returned closure, run on the button as it is then. *)
Definition remove_loading_state (original_text : js_string) (b : button)
  : button :=
  Button original_text false.

(** [k] calls in a row on the same button: the button, and the captured
    texts, the one of the latest call first. *)
Fixpoint add_loading_states (k : nat) (b : button) : button * list js_string :=
  match k with
  | O => (b, [])
  | S k' =>
      let '(b1, captured) := add_loading_states k' b in
      let '(b2, original_text) := add_loading_state b1 in
      (b2, original_text :: captured)
  end.

(** Running the returned closures in the given order. *)
Definition remove_loading_states (captured : list js_string) (b : button)
  : button :=
  fold_left (fun b original_text => remove_loading_state original_text b)
            captured b.

(* ===================================================================== *)
(** ** SmoothScrollController: the listener of [setup_smooth_scrolling] *)
(* ===================================================================== *)

(** What [document.querySelector(targetId)] does with the link's [href]:
    the selector does not parse, nothing matches, or the first match, of
    which the listener reads [offsetTop]. *)
Inductive query_result : Type :=
  | InvalidSelector
  | NoMatch
  | Match (offsetTop : Z).

(** How the listener ends. *)
Inductive scroll_outcome : Type :=
  | ScrollTo (top : Z)        (* window.scrollTo({top, behavior: 'smooth'}) *)
  | NoScroll
  | Raised (name : string).

(** The listener: whether [e.preventDefault()] was called, and how it
    ended. [header] is the [offsetHeight] of
    [document.querySelector('.header')], [None] when that is [null]. *)
Definition smooth_scroll_listener (targetSection : query_result)
    (header : option Z) : bool * scroll_outcome :=
  (true,
   match targetSection with
   | InvalidSelector => Raised "SyntaxError"
   | NoMatch => NoScroll
   | Match offsetTop =>
       match header with
       | None => Raised "TypeError"
       | Some headerHeight =>
           let targetPosition := offsetTop - headerHeight in
           ScrollTo targetPosition
       end
   end).

(* ===================================================================== *)
(** ** Sequences of events *)
(* ===================================================================== *)

(** The navigation events one after the other, up to the first error. *)
Fixpoint nav_run (s : nav) (es : list nav_event) : result nav :=
  match es with
  | [] => Ok s
  | e :: es' => let! s' := nav_handle s e in nav_run s' es'
  end.

(** The [active] flags of the toggle button and of the menu agree. *)
Definition in_sync (s : nav) : Prop :=
  forall t m, navToggle s = Some t -> navMenu s = Some m ->
              class_contains "active" t = class_contains "active" m.

(** The fields of the contact form. *)
Inductive field : Type := FName | FEmail | FMessage.

(** The user types [v] into a field. *)
Definition set_value (fld : field) (v : js_string) (f : form) : form :=
  let put c := Control v (defaultValue c) in
  match fld with
  | FName => Form (put <$> name_control f) (email_control f) (message_control f)
  | FEmail => Form (name_control f) (put <$> email_control f) (message_control f)
  | FMessage => Form (name_control f) (email_control f) (put <$> message_control f)
  end.

(** What the user can do to the form and the notification slot. *)
Inductive ui_event : Type :=
  | UiInput (fld : field) (v : js_string)
  | UiSubmit
  | UiProjectLink (href : option js_string)
  | UiNotification (e : event).

(** [contactForm] is [None] when the page has no [.contact-form]:
    [setup_form_handling] then registers nothing. *)
Definition ui_step (s : option form * page) (e : ui_event)
  : option form * page :=
  let '(contactForm, p) := s in
  match e with
  | UiInput fld v => (set_value fld v <$> contactForm, p)
  | UiSubmit =>
      match contactForm with
      | Some f => let '(f', p') := submit_listener f p in (Some f', p')
      | None => (None, p)
      end
  | UiProjectLink href => (contactForm, snd (project_link_listener href p))
  | UiNotification ev => (contactForm, step p ev)
  end.

Definition ui_run (s : option form * page) (es : list ui_event)
  : option form * page :=
  fold_left ui_step es s.

(* ===================================================================== *)
(** ** Observations on a notification *)
(* ===================================================================== *)

(** [el.style.transform], for an element that exists. *)
Definition transform_of (n : nat) (p : page) : option string :=
  transform <$> heap p !! n.

(** No pending timer detaches [n] by [until]: a removal is due later, and
    an automatic dismissal is due so late that the removal it schedules
    300ms after it is. *)
Definition stays_until (n : nat) (until : Z) (p : page) : Prop :=
  n ∈ body p
  /\ Forall (fun t => (snd t = RemoveEl n -> until < fst t)
                      /\ (snd t = AutoDismiss n -> until < fst t + 300))
            (timers p).

(** No pending timer hides [n] by [until]. *)
Definition not_hidden_until (n : nat) (until : Z) (p : page) : Prop :=
  Forall (fun t => snd t = AutoDismiss n -> until < fst t) (timers p).

(** A timer is pending that dismisses or removes the element [n]. *)
Definition has_dismissal (p : page) (n : nat) : Prop :=
  exists d, (d, AutoDismiss n) ∈ timers p \/ (d, RemoveEl n) ∈ timers p.

(** Every attached element is on its way out, and no timer is due later
    than 5000ms from now. *)
Definition settles (p : page) : Prop :=
  Forall (has_dismissal p) (body p)
  /\ Forall (fun t => fst t <= clock p + 5000) (timers p).

(** The character [<]. *)
Definition less_than_sign : Ascii.ascii := Ascii.ascii_of_nat 60.

(** The message holds no [<]. [show_notification] interpolates the
    message into [innerHTML]; of such a message the parser makes text and
    nothing else, so the template is as written: its close button is what
    [querySelector('.notification-close')] finds. A message with markup can
    put another node first, hide the button, or run handlers of its own;
    [show_notification] above is the call for a message without markup,
    which is what the three call sites of the script pass. *)
Fixpoint markup_free (s : string) : bool :=
  match s with
  | EmptyString => true
  | String c r => negb (Ascii.eqb c less_than_sign) && markup_free r
  end.

(** Every message shown in the course of the events is free of markup. *)
Definition markup_free_events (es : list event) : Prop :=
  Forall (fun e => match e with
                   | ShowCall msg _ => markup_free msg = true
                   | _ => True
                   end) es.

Definition is_show (e : event) : bool :=
  match e with
  | ShowCall _ _ => true
  | _ => false
  end.

(** No event is a call of [show_notification]. *)
Definition no_show (es : list event) : bool :=
  forallb (fun e => negb (is_show e)) es.

(** The milliseconds that pass in the course of the events. *)
Definition elapsed (es : list event) : Z :=
  fold_right (fun e acc => match e with
                           | Advance dt => Z.of_N dt + acc
                           | _ => acc
                           end) 0 es.

(** The element [n] is detached by [deadline] at the latest: it is
    detached already, or its removal is pending and due by then, or its
    automatic dismissal is pending, not overdue, and due at least 300ms
    before. *)
Definition leaving (n : nat) (deadline : Z) (q : page) : Prop :=
  ~ (n ∈ body q)
  \/ (exists d, d <= deadline /\ (d, RemoveEl n) ∈ timers q)
  \/ (exists d, d + 300 <= deadline /\ clock q <= d
                 /\ (d, AutoDismiss n) ∈ timers q).

(** Every pending timer is due later than now. *)
Definition none_overdue (q : page) : Prop :=
  Forall (fun t => clock q < fst t) (timers q).

#[global] Instance callback_eq_dec : EqDecision callback.
Proof. solve_decision. Defined.

(* ===================================================================== *)
(** * Properties *)
(* ===================================================================== *)

(** ** The matcher decides the language *)

Section RegexCorrect.

Lemma Matches_cat_inv r1 r2 s :
  Matches (Cat r1 r2) s ->
  exists s1 s2, s = s1 ++ s2 /\ Matches r1 s1 /\ Matches r2 s2.
Proof. intros H. inversion H; subst. eauto. Qed.

Lemma Matches_alt_inv r1 r2 s :
  Matches (Alt r1 r2) s -> Matches r1 s \/ Matches r2 s.
Proof. intros H. inversion H; subst; auto. Qed.

Lemma Matches_class_inv p s :
  Matches (Class p) s -> exists c, s = [c] /\ p c = true.
Proof. intros H. inversion H; subst. eauto. Qed.

Lemma nullable_spec r : nullable r = true <-> Matches r [].
Proof.
  induction r as [| |p|r1 IH1 r2 IH2|r1 IH1 r2 IH2|r IH]; simpl.
  - split; [discriminate | intros H; inversion H].
  - split; [constructor | reflexivity].
  - split; [discriminate | intros H; inversion H].
  - rewrite andb_true_iff, IH1, IH2. split.
    + intros [H1 H2]. exact (MCat r1 r2 [] [] H1 H2).
    + intros H. apply Matches_cat_inv in H as (s1 & s2 & E & H1 & H2).
      symmetry in E. apply app_eq_nil in E as [-> ->]. now split.
  - rewrite orb_true_iff, IH1, IH2. split.
    + intros [H|H]; [now apply MAltL | now apply MAltR].
    + apply Matches_alt_inv.
  - split; [constructor | reflexivity].
Qed.

(** A non-empty word of [r*] starts with a non-empty word of [r]. *)
Lemma Matches_star_cons r c s :
  Matches (Star r) (c :: s) ->
  exists s1 s2, s = s1 ++ s2 /\ Matches r (c :: s1) /\ Matches (Star r) s2.
Proof.
  intros H. remember (Star r) as r' eqn:Er. remember (c :: s) as w eqn:Ew.
  revert c s Ew.
  induction H as [| | | | | |r0 s1 s2 H1 _ H2 IH2]; try discriminate.
  intros c s Ew. injection Er as ->.
  destruct s1 as [|d s1]; simpl in Ew.
  - now apply IH2.
  - injection Ew as -> <-. now exists s1, s2.
Qed.

Lemma deriv_spec c r : forall s, Matches (deriv c r) s <-> Matches r (c :: s).
Proof.
  induction r as [| |p|r1 IH1 r2 IH2|r1 IH1 r2 IH2|r IH]; intros s; simpl.
  - split; intros H; inversion H.
  - split; intros H; inversion H.
  - destruct (p c) eqn:Ep; split; intros H.
    + inversion H; subst. now constructor.
    + apply Matches_class_inv in H as (d & E & _). injection E as _ ->.
      constructor.
    + inversion H.
    + apply Matches_class_inv in H as (d & E & Hd). injection E as -> _.
      congruence.
  - assert (Hcat : Matches (Cat (deriv c r1) r2) s ->
                   Matches (Cat r1 r2) (c :: s)).
    { intros H. apply Matches_cat_inv in H as (s1 & s2 & -> & H1 & H2).
      apply IH1 in H1. exact (MCat r1 r2 (c :: s1) s2 H1 H2). }
    assert (Hinv : Matches (Cat r1 r2) (c :: s) ->
                   Matches (Cat (deriv c r1) r2) s
                   \/ (Matches r1 [] /\ Matches r2 (c :: s))).
    { intros H. apply Matches_cat_inv in H as (s1 & s2 & E & H1 & H2).
      destruct s1 as [|d s1]; simpl in E.
      - right. subst s2. now split.
      - injection E as <- ->. left. constructor; [now apply IH1 | done]. }
    destruct (nullable r1) eqn:En.
    + split.
      * intros H. apply Matches_alt_inv in H as [H|H]; [now apply Hcat |].
        apply nullable_spec in En.
        apply IH2 in H. exact (MCat r1 r2 [] (c :: s) En H).
      * intros H. apply Hinv in H as [H|[_ H]].
        -- now apply MAltL.
        -- apply MAltR. now apply IH2.
    + split; [exact Hcat |].
      intros H. apply Hinv in H as [H|[H _]]; [done |].
      apply nullable_spec in H. congruence.
  - split; intros H.
    + apply Matches_alt_inv in H as [H|H].
      * apply MAltL. now apply IH1.
      * apply MAltR. now apply IH2.
    + apply Matches_alt_inv in H as [H|H].
      * apply MAltL. now apply IH1.
      * apply MAltR. now apply IH2.
  - split.
    + intros H. apply Matches_cat_inv in H as (s1 & s2 & -> & H1 & H2).
      apply IH in H1. exact (MStarCons r (c :: s1) s2 H1 H2).
    + intros H. apply Matches_star_cons in H as (s1 & s2 & -> & H1 & H2).
      constructor; [now apply IH | done].
Qed.

Lemma test_anchored_spec s : forall r, test_anchored r s = true <-> Matches r s.
Proof.
  induction s as [|c s IH]; intros r; simpl.
  - apply nullable_spec.
  - rewrite IH. apply deriv_spec.
Qed.

End RegexCorrect.

(** ** Validator *)

Section Validator.

Local Abbreviation all_ok p := (Forall (fun c => p c = true)).

Lemma Matches_star_class p s :
  Matches (Star (Class p)) s <-> all_ok p s.
Proof.
  split.
  - intros H. remember (Star (Class p)) as r eqn:Er.
    induction H as [| | | | | |r0 s1 s2 H1 _ _ IH2]; try discriminate.
    + constructor.
    + injection Er as ->.
      apply Matches_class_inv in H1 as (c & -> & Hc).
      constructor; [done | now apply IH2].
  - induction 1 as [|c s Hc _ IH].
    + constructor.
    + apply (MStarCons (Class p) [c] s); [now constructor | done].
Qed.

Lemma Matches_plus_class p s :
  Matches (Plus (Class p)) s <-> s <> [] /\ all_ok p s.
Proof.
  unfold Plus. split.
  - intros H. apply Matches_cat_inv in H as (s1 & s2 & -> & H1 & H2).
    apply Matches_class_inv in H1 as (c & -> & Hc).
    apply Matches_star_class in H2. split; [discriminate |].
    now constructor.
  - intros [Hne H]. destruct H as [|c s Hc H]; [congruence |].
    apply (MCat (Class p) (Star (Class p)) [c] s); [now constructor |].
    now apply Matches_star_class.
Qed.

Lemma Matches_literal (d : N) s : Matches (Class (N.eqb d)) s <-> s = [d].
Proof.
  split.
  - intros H. apply Matches_class_inv in H as (c & -> & Hc).
    apply N.eqb_eq in Hc. now subst.
  - intros ->. constructor. apply N.eqb_refl.
Qed.

Lemma Matches_email_regex s : Matches email_regex s <-> email_shape s.
Proof.
  unfold email_regex, email_shape. split.
  - intros H.
    apply Matches_cat_inv in H as (u & s1 & -> & Hu & H).
    apply Matches_cat_inv in H as (a & s2 & -> & Ha & H).
    apply Matches_cat_inv in H as (v & s3 & -> & Hv & H).
    apply Matches_cat_inv in H as (d & w & -> & Hd & Hw).
    apply Matches_literal in Ha as ->. apply Matches_literal in Hd as ->.
    apply Matches_plus_class in Hu as [? ?].
    apply Matches_plus_class in Hv as [? ?].
    apply Matches_plus_class in Hw as [? ?].
    exists u, v, w. repeat split; done.
  - intros (u & v & w & -> & Hu & Hv & Hw & Fu & Fv & Fw).
    repeat (apply MCat);
      try (apply Matches_literal; reflexivity);
      apply Matches_plus_class; done.
Qed.

End Validator.

(** C4. [is_valid_email] accepts exactly the strings of the shape: one or
    more characters that are neither white space nor [@], then [@], then one
    or more such characters, then [.], then one or more such characters,
    with nothing before or after. It accepts [a@b.co] and rejects [a@b],
    [a.com], [@b.co] and [a@b@c.co]. *)
Theorem is_valid_email_pattern :
  (forall s : js_string, is_valid_email s = true <-> email_shape s)
  /\ is_valid_email (lit "a@b.co") = true
  /\ is_valid_email (lit "a@b") = false
  /\ is_valid_email (lit "a.com") = false
  /\ is_valid_email (lit "@b.co") = false
  /\ is_valid_email (lit "a@b@c.co") = false.
Proof.
  split.
  - intros s. unfold is_valid_email.
    rewrite test_anchored_spec. apply Matches_email_regex.
  - repeat split; vm_compute; reflexivity.
Qed.

(** ** NotificationCenter: the timer queue *)

Section TimerQueue.

Lemma pick_None ts : pick ts = None <-> ts = [].
Proof.
  destruct ts as [|t ts]; simpl; [done |].
  destruct (pick ts) as [[m rest]|]; [|done].
  destruct (fst t <=? fst m); done.
Qed.

Lemma pick_Permutation ts t rest :
  pick ts = Some (t, rest) -> ts ≡ₚ t :: rest.
Proof.
  revert t rest. induction ts as [|a ts IH]; intros t rest; simpl; [done |].
  destruct (pick ts) as [[m r]|] eqn:E.
  - destruct (fst a <=? fst m); intros [= <- <-]; [done |].
    rewrite (IH m r eq_refl). apply perm_swap.
  - apply pick_None in E as ->. intros [= <- <-]. done.
Qed.

Lemma pick_earliest ts t rest :
  pick ts = Some (t, rest) -> Forall (fun x => fst t <= fst x) ts.
Proof.
  revert t rest. induction ts as [|a ts IH]; intros t rest; simpl; [done |].
  destruct (pick ts) as [[m r]|] eqn:E.
  - specialize (IH m r eq_refl).
    destruct (fst a <=? fst m) eqn:Ele; intros [= <- <-].
    + apply Z.leb_le in Ele. constructor; [lia |].
      eapply Forall_impl; [exact IH |]. simpl. intros; lia.
    + apply Z.leb_gt in Ele. constructor; [lia | done].
  - apply pick_None in E as ->. intros [= <- <-].
    constructor; [lia | constructor].
Qed.

Lemma timers_weight_app ts1 ts2 :
  timers_weight (ts1 ++ ts2) = (timers_weight ts1 + timers_weight ts2)%nat.
Proof.
  unfold timers_weight. rewrite map_app. apply list_sum_app.
Qed.

Lemma callback_weight_pos cb : (1 <= callback_weight cb)%nat.
Proof. destruct cb; simpl; lia. Qed.

Lemma timers_weight_pick ts t rest :
  pick ts = Some (t, rest) ->
  timers_weight ts = (callback_weight (snd t) + timers_weight rest)%nat.
Proof.
  revert t rest. induction ts as [|a ts IH]; intros t rest; simpl; [done |].
  destruct (pick ts) as [[m r]|] eqn:E.
  - specialize (IH m r eq_refl).
    destruct (fst a <=? fst m); intros [= <- <-].
    + reflexivity.
    + unfold timers_weight in *. simpl. lia.
  - apply pick_None in E as ->. intros [= <- <-]. reflexivity.
Qed.

Lemma timers_weight_0 ts : timers_weight ts = 0%nat -> ts = [].
Proof.
  destruct ts as [|t ts]; [done |].
  unfold timers_weight. simpl.
  pose proof (callback_weight_pos (snd t)). lia.
Qed.

(** A callback schedules at most one further callback, a lighter one. *)
Lemma fire_timers cb p :
  exists extra,
    timers (fire cb p) = timers p ++ extra
    /\ (timers_weight extra < callback_weight cb)%nat
    /\ Forall (fun t => callback_target (snd t) = callback_target cb) extra.
Proof.
  destruct cb as [n|n|n]; simpl.
  - exists []. rewrite app_nil_r. repeat split; [cbv; lia | constructor].
  - exists []. rewrite app_nil_r. repeat split; [cbv; lia | constructor].
  - unfold auto_dismiss. destruct (parentNode n p).
    + eexists [_]. simpl. repeat split; [cbv; lia |].
      repeat constructor.
    + exists []. rewrite app_nil_r. repeat split; [cbv; lia | constructor].
Qed.

(** Whatever holds before the event loop runs, is kept by moving the
    clock and is kept by firing a due timer, holds afterwards. *)
Lemma run_timers_invariant (I : page -> Prop) until :
  (forall p c, I p -> I (with_clock c p)) ->
  (forall p t rest,
      I p -> pick (timers p) = Some (t, rest) -> fst t <= until ->
      I (fire (snd t)
           (with_clock (Z.max (clock p) (fst t)) (with_timers rest p)))) ->
  forall fuel p, I p -> I (run_timers fuel until p).
Proof.
  intros Hclock Hfire. induction fuel as [|fuel IH]; intros p Hp; simpl.
  - now apply Hclock.
  - destruct (pick (timers p)) as [[[due cb] rest]|] eqn:E;
      [|now apply Hclock].
    destruct (due <=? until) eqn:Ed; [|now apply Hclock].
    apply Z.leb_le in Ed. apply IH.
    exact (Hfire p (due, cb) rest Hp E Ed).
Qed.

End TimerQueue.

(** ** NotificationCenter: what the handlers keep *)

Section NotificationSlot.

Lemma parentNode_true n p : parentNode n p = true <-> n ∈ body p.
Proof.
  unfold parentNode. induction (body p) as [|m b IH]; simpl.
  - split; [discriminate | intros H; inversion H].
  - rewrite orb_true_iff, IH, elem_of_cons, Nat.eqb_eq. done.
Qed.

Lemma parentNode_false n p : parentNode n p = false <-> n ∉ body p.
Proof.
  rewrite <- parentNode_true. destruct (parentNode n p); split; congruence.
Qed.

Lemma filter_sublist {A} (f : A -> bool) l : sublist (List.filter f l) l.
Proof.
  induction l as [|a l IH]; simpl; [constructor |].
  destruct (f a); now constructor.
Qed.

Lemma sublist_filter_mono {A} (f : A -> bool) l1 l2 :
  sublist l1 l2 -> sublist (List.filter f l1) (List.filter f l2).
Proof.
  induction 1 as [|a l1 l2 _ IH|a l1 l2 _ IH]; simpl.
  - constructor.
  - destruct (f a); [now constructor | done].
  - destruct (f a); [now constructor | done].
Qed.

Lemma filter_not_elem n (b : list nat) :
  n ∉ List.filter (fun m => negb (Nat.eqb n m)) b.
Proof.
  rewrite list_elem_of_In, filter_In. intros [_ H].
  rewrite Nat.eqb_refl in H. discriminate.
Qed.


Lemma filter_other n m (b : list nat) :
  m <> n -> n ∈ b -> n ∈ List.filter (fun k => negb (Nat.eqb m k)) b.
Proof.
  intros Hne. rewrite !list_elem_of_In, filter_In. intros H. split; [done |].
  destruct (Nat.eqb_spec m n); done.
Qed.

Local Ltac kept_trivial := unfold kept; simpl; repeat split; try reflexivity.

Lemma kept_refl p : kept p p.
Proof. kept_trivial. Qed.

Lemma kept_trans p1 p2 p3 : kept p1 p2 -> kept p2 p3 -> kept p1 p3.
Proof.
  intros (Hn & Hc & Hi & Hs) (Hn' & Hc' & Hi' & Hs').
  repeat split; [congruence | congruence | |].
  - intros m. now rewrite Hi'.
  - now transitivity (body p2).
Qed.

Lemma kept_with_clock p c : kept p (with_clock c p).
Proof. kept_trivial. Qed.

Lemma kept_with_timers p ts : kept p (with_timers ts p).
Proof. kept_trivial. Qed.

Lemma kept_set_timeout p cb d : kept p (set_timeout cb d p).
Proof. kept_trivial. Qed.

Lemma kept_set_transform p n t : kept p (set_transform n t p).
Proof.
  kept_trivial. intros m. unfold is_notification, set_transform. simpl.
  rewrite lookup_alter. case_decide; [subst|done].
  destruct (heap p !! m); done.
Qed.

Lemma kept_element_remove p n : kept p (element_remove n p).
Proof. kept_trivial. apply filter_sublist. Qed.

Lemma kept_close_click p n : kept p (close_click n p).
Proof.
  unfold close_click.
  eapply kept_trans; [apply kept_set_transform | apply kept_set_timeout].
Qed.

Lemma kept_fire p cb : kept p (fire cb p).
Proof.
  destruct cb as [n|n|n]; simpl.
  - apply kept_set_transform.
  - apply kept_element_remove.
  - unfold auto_dismiss. destruct (parentNode n p); [|apply kept_refl].
    eapply kept_trans; [apply kept_set_transform | apply kept_set_timeout].
Qed.

Lemma kept_click_close_button p n : kept p (click_close_button n p).
Proof.
  unfold click_close_button. case_bool_decide.
  - apply kept_close_click.
  - apply kept_refl.
Qed.

Lemma kept_run_timers fuel until p : kept p (run_timers fuel until p).
Proof.
  apply (run_timers_invariant (kept p) until); [| |apply kept_refl].
  - intros q c Hq. eapply kept_trans; [exact Hq | apply kept_with_clock].
  - intros q t rest Hq _ _.
    eapply kept_trans; [exact Hq |].
    eapply kept_trans; [apply (kept_with_timers q rest) |].
    eapply kept_trans; [apply kept_with_clock | apply kept_fire].
Qed.

Lemma kept_advance dt p : kept p (advance dt p).
Proof. apply kept_run_timers. Qed.

Lemma kept_notifications p p' :
  kept p p' -> sublist (notifications p') (notifications p).
Proof.
  intros (_ & _ & Hi & Hs). unfold notifications.
  rewrite (List.filter_ext _ _ Hi). now apply sublist_filter_mono.
Qed.

Lemma kept_detached p p' n : kept p p' -> n ∉ body p -> n ∉ body p'.
Proof.
  intros (_ & _ & _ & Hs) Hn Hin. apply Hn.
  eapply sublist_submseteq, submseteq_Permutation in Hs as [k Hk].
  rewrite Hk. apply elem_of_app. now left.
Qed.

End NotificationSlot.

(** ** NotificationCenter: [show_notification] replaces *)

Section ShowNotification.

Lemma sublist_Forall {A} (P : A -> Prop) l1 l2 :
  sublist l1 l2 -> Forall P l2 -> Forall P l1.
Proof.
  induction 1 as [|a l1 l2 _ IH|a l1 l2 _ IH]; intros H.
  - constructor.
  - inversion H; subst. constructor; auto.
  - inversion H; subst. auto.
Qed.

Lemma find_filter_head {A} (f : A -> bool) l :
  List.find f l = head (List.filter f l).
Proof.
  induction l as [|a l IH]; simpl; [done |]. destruct (f a); done.
Qed.

Lemma filter_filter_comm {A} (f g : A -> bool) l :
  List.filter f (List.filter g l) = List.filter g (List.filter f l).
Proof.
  induction l as [|a l IH]; simpl; [done |].
  destruct (f a) eqn:Ef, (g a) eqn:Eg; simpl; rewrite ?Ef, ?Eg, ?IH; done.
Qed.

(** The element [show_notification] creates matches [.notification],
    whatever its [type]. *)
Lemma new_element_has_class type msg bg tr :
  has_notification_class (Element (notification_class_name type) msg bg tr)
  = true.
Proof. reflexivity. Qed.

(** With at most one notification attached, removing the one
    [querySelector] finds leaves none. *)
Lemma removal_leaves_none p :
  (length (notifications p) <= 1)%nat ->
  notifications
    (match query_notification p with
     | Some existing_notification => element_remove existing_notification p
     | None => p
     end) = [].
Proof.
  unfold query_notification. rewrite find_filter_head. fold (notifications p).
  intros Hlen. destruct (notifications p) as [|old [|? ?]] eqn:E; simpl.
  - exact E.
  - unfold notifications, element_remove. simpl.
    change (List.filter (is_notification p)
              (List.filter (fun m => negb (Nat.eqb old m)) (body p)) = []).
    rewrite filter_filter_comm. fold (notifications p). rewrite E. simpl.
    now rewrite Nat.eqb_refl.
  - simpl in Hlen. lia.
Qed.

(** The page [show_notification] builds, written out. *)
Lemma show_notification_eq msg type p :
  let p1 := match query_notification p with
            | Some existing_notification =>
                element_remove existing_notification p
            | None => p
            end in
  let n := next_id p in
  show_notification msg type p =
    Page (body p1 ++ [n])
         (<[n := Element (notification_class_name type) msg
                         (notification_background type) off_screen]> (heap p))
         ((timers p ++ [(clock p + 100, AnimateIn n)])
                    ++ [(clock p + 5000, AutoDismiss n)])
         (clock p) (S n) ({[n]} ∪ close_listeners p).
Proof.
  unfold show_notification.
  destruct (query_notification p); reflexivity.
Qed.

Lemma show_notification_slot msg type p :
  fresh_ids p -> (length (notifications p) <= 1)%nat ->
  notifications (show_notification msg type p) = [next_id p].
Proof.
  intros (Hbody & _ & _) Hlen.
  pose proof (removal_leaves_none p Hlen) as Hnone.
  rewrite show_notification_eq. cbv zeta.
  set (p1 := match query_notification p with
             | Some o => element_remove o p | None => p end) in *.
  assert (Hk : kept p p1).
  { subst p1. destruct (query_notification p);
      [apply kept_element_remove | apply kept_refl]. }
  destruct Hk as (_ & _ & Hi & Hs).
  unfold notifications at 1. simpl. rewrite List.filter_app. simpl.
  unfold is_notification at 2. simpl. rewrite lookup_insert_eq.
  rewrite new_element_has_class.
  replace (List.filter _ (body p1)) with (notifications p1);
    [now rewrite Hnone |].
  unfold notifications. apply filter_ext_in. intros m Hm.
  rewrite Hi. unfold is_notification. simpl.
  rewrite lookup_insert_ne; [done |].
  apply (sublist_Forall _ _ _ Hs) in Hbody.
  rewrite Forall_forall in Hbody. apply list_elem_of_In in Hm.
  specialize (Hbody m Hm). lia.
Qed.

End ShowNotification.

(** ** NotificationCenter: the slot invariant *)

Section SlotInvariant.

Lemma fresh_kept p p' :
  kept p p' -> fresh_ids p ->
  Forall (fun t => (callback_target (snd t) < next_id p)%nat) (timers p') ->
  fresh_ids p'.
Proof.
  intros (Hn & Hc & _ & Hs) (Hb & _ & Hl) Ht. unfold fresh_ids.
  rewrite Hn, Hc. repeat split; [|done|done].
  now apply (sublist_Forall _ _ _ Hs).
Qed.

Lemma fresh_fire cb p :
  fresh_ids p -> (callback_target cb < next_id p)%nat -> fresh_ids (fire cb p).
Proof.
  intros Hp Hcb. apply (fresh_kept p); [apply kept_fire | done |].
  destruct (fire_timers cb p) as (extra & -> & _ & Hx).
  apply Forall_app. split; [apply Hp |].
  eapply Forall_impl; [exact Hx |]. simpl. intros t ->. done.
Qed.

Lemma fresh_run_timers fuel until p :
  fresh_ids p -> fresh_ids (run_timers fuel until p).
Proof.
  apply run_timers_invariant.
  - intros q c Hq. exact Hq.
  - intros q t rest (Hb & Ht & Hl) Hpick _.
    apply pick_Permutation in Hpick. rewrite Hpick in Ht.
    apply Forall_cons in Ht as [Ht Hrest].
    apply fresh_fire; [|exact Ht]. repeat split; done.
Qed.

Lemma fresh_click_close_button n p :
  fresh_ids p -> fresh_ids (click_close_button n p).
Proof.
  intros Hp. unfold click_close_button. case_bool_decide as Hn; [|done].
  apply (fresh_kept p); [apply kept_close_click | done |].
  simpl. apply Forall_app. split; [apply Hp |].
  constructor; [|constructor]. simpl. now apply Hp.
Qed.

Lemma fresh_show_notification msg type p :
  fresh_ids p -> fresh_ids (show_notification msg type p).
Proof.
  intros (Hb & Ht & Hl). rewrite show_notification_eq. cbv zeta.
  repeat split; simpl.
  - apply Forall_app. split; [|repeat constructor].
    assert (Hs : sublist
              (body match query_notification p with
                    | Some o => element_remove o p | None => p end) (body p)).
    { destruct (query_notification p); [apply filter_sublist | done]. }
    apply (sublist_Forall _ _ _ Hs).
    eapply Forall_impl; [exact Hb |]. simpl. intros; lia.
  - rewrite !Forall_app. repeat split; [|repeat constructor..].
    eapply Forall_impl; [exact Ht |]. simpl. intros; lia.
  - intros n. rewrite elem_of_union, elem_of_singleton.
    intros [->|Hn]; [lia |]. specialize (Hl n Hn). lia.
Qed.

Lemma page_ok_kept p p' :
  kept p p' -> fresh_ids p' -> page_ok p -> page_ok p'.
Proof.
  intros Hk Hf (_ & Hlen). split; [done |].
  apply kept_notifications, sublist_length in Hk. lia.
Qed.

Lemma page_ok_step p e : page_ok p -> page_ok (step p e).
Proof.
  intros Hp. destruct e as [msg type|n|dt]; simpl.
  - destruct Hp as (Hf & Hlen). split.
    + now apply fresh_show_notification.
    + rewrite show_notification_slot by done. simpl. lia.
  - apply (page_ok_kept p); [apply kept_click_close_button | | done].
    apply fresh_click_close_button, Hp.
  - apply (page_ok_kept p); [apply kept_advance | | done].
    apply fresh_run_timers, Hp.
Qed.

Lemma page_ok_run_events es : forall p, page_ok p -> page_ok (run_events p es).
Proof.
  induction es as [|e es IH]; intros p Hp; simpl; [done |].
  apply IH, page_ok_step, Hp.
Qed.

Lemma page_ok_empty : page_ok empty_page.
Proof.
  repeat split; simpl; try constructor; try lia.
  intros n Hn. exfalso. revert Hn. apply not_elem_of_empty.
Qed.

End SlotInvariant.

(** ** NotificationCenter: a notification nobody dismisses stays *)

Section Undisturbed.

Lemma alone_fire n deadline cb p :
  alone n deadline p -> cb <> RemoveEl n -> cb <> AutoDismiss n ->
  alone n deadline (fire cb p).
Proof.
  intros (Hb & Hi & Ht) Hr Ha.
  destruct (kept_fire p cb) as (_ & _ & Hk & _).
  repeat split; [| now rewrite Hk |].
  - destruct cb as [m|m|m]; simpl; [done | |].
    + apply filter_other; [congruence | done].
    + unfold auto_dismiss. destruct (parentNode m p); done.
  - destruct cb as [m|m|m]; simpl; [done | done |].
    unfold auto_dismiss. destruct (parentNode m p); [|done]. simpl.
    apply Forall_app. split; [done |].
    constructor; [|constructor]. simpl. split; congruence.
Qed.

Lemma alone_run_timers n deadline fuel until p :
  until < deadline -> alone n deadline p ->
  alone n deadline (run_timers fuel until p).
Proof.
  intros Hu. apply run_timers_invariant.
  - intros q c Hq. exact Hq.
  - intros q [due cb] rest (Hb & Hi & Ht) Hpick Hdue. simpl in *.
    apply pick_Permutation in Hpick. rewrite Hpick in Ht.
    apply Forall_cons in Ht as [[Hr Ha] Hrest]. simpl in *.
    apply alone_fire; [repeat split; done | done |].
    intros ->. specialize (Ha eq_refl). lia.
Qed.

Lemma alone_click_close_button n deadline m p :
  m <> n -> alone n deadline p -> alone n deadline (click_close_button m p).
Proof.
  intros Hne (Hb & Hi & Ht). unfold click_close_button.
  case_bool_decide; [|done].
  destruct (kept_close_click p m) as (_ & _ & Hk & _).
  repeat split; [done | now rewrite Hk |]. simpl.
  apply Forall_app. split; [done |].
  constructor; [|constructor]. simpl. split; congruence.
Qed.

Lemma alone_show_notification msg type p :
  fresh_ids p ->
  alone (next_id p) (clock p + 5000) (show_notification msg type p).
Proof.
  intros (_ & Ht & _). rewrite show_notification_eq. cbv zeta.
  repeat split; simpl.
  - apply elem_of_app. right. apply list_elem_of_singleton. done.
  - unfold is_notification. simpl. rewrite lookup_insert_eq.
    apply new_element_has_class.
  - rewrite !Forall_app. repeat split.
    + eapply Forall_impl; [exact Ht |]. simpl. intros [d cb] Hlt. simpl in *.
      split; intros ->; simpl in Hlt; lia.
    + repeat constructor; simpl; congruence.
    + repeat constructor; simpl; [congruence | lia].
Qed.

Lemma clock_run_timers fuel until : forall p,
  clock (run_timers fuel until p) = until.
Proof.
  induction fuel as [|fuel IH]; intros p; simpl; [done |].
  destruct (pick (timers p)) as [[[due cb] rest]|]; [|done].
  destruct (due <=? until); [apply IH | done].
Qed.

Lemma clock_click_close_button n p : clock (click_close_button n p) = clock p.
Proof. unfold click_close_button. case_bool_decide; done. Qed.

Lemma alone_run_events n deadline es : forall budget p,
  undisturbed n budget es -> clock p + budget <= deadline ->
  alone n deadline p -> alone n deadline (run_events p es).
Proof.
  induction es as [|e es IH]; intros budget p Hes Hclock Hp; simpl; [done |].
  destruct e as [msg type|m|dt]; simpl in Hes; [done | |].
  - destruct Hes as [Hne Hes].
    apply (IH budget); [done | | now apply alone_click_close_button].
    simpl. now rewrite clock_click_close_button.
  - destruct Hes as [Hdt Hes].
    apply (IH (budget - Z.of_N dt)); [done | |].
    + simpl. unfold advance. rewrite clock_run_timers. lia.
    + simpl. apply alone_run_timers; [lia | done].
Qed.

Lemma alone_only n deadline p :
  page_ok p -> alone n deadline p -> notifications p = [n].
Proof.
  intros (_ & Hlen) (Hb & Hi & _).
  assert (Hin : n ∈ notifications p).
  { unfold notifications. rewrite list_elem_of_In, filter_In.
    now rewrite <- list_elem_of_In. }
  destruct (notifications p) as [|a [|b l]]; simpl in Hlen.
  - inversion Hin.
  - apply list_elem_of_singleton in Hin. now subst.
  - lia.
Qed.

End Undisturbed.

(** ** NotificationCenter: a scheduled removal happens *)

Section Removal.

Lemma detached_run_timers fuel until n p :
  n ∉ body p -> n ∉ body (run_timers fuel until p).
Proof. apply kept_detached, kept_run_timers. Qed.

(** With fuel for every pending callback, a removal due by [until] has
    been carried out when the event loop reaches [until]. *)
Lemma run_timers_removes n until fuel : forall p due,
  (timers_weight (timers p) <= fuel)%nat ->
  (due, RemoveEl n) ∈ timers p -> due <= until ->
  n ∉ body (run_timers fuel until p).
Proof.
  induction fuel as [|fuel IH]; intros p due Hfuel Hin Hdue.
  - assert (timers p = []) as E by (apply timers_weight_0; lia).
    rewrite E in Hin. inversion Hin.
  - simpl. destruct (pick (timers p)) as [[[d cb] rest]|] eqn:Hpick.
    2:{ apply pick_None in Hpick. rewrite Hpick in Hin. inversion Hin. }
    pose proof (pick_earliest _ _ _ Hpick) as Hmin.
    rewrite Forall_forall in Hmin. specialize (Hmin _ Hin). simpl in Hmin.
    replace (d <=? until) with true by (symmetry; apply Z.leb_le; lia).
    pose proof (timers_weight_pick _ _ _ Hpick) as Hw. simpl in Hw.
    pose proof (pick_Permutation _ _ _ Hpick) as Hperm.
    rewrite Hperm in Hin. apply elem_of_cons in Hin as [Heq|Hrest].
    + injection Heq as <- <-. apply detached_run_timers. simpl.
      apply filter_not_elem.
    + set (q := with_clock (Z.max (clock p) d) (with_timers rest p)).
      destruct (fire_timers cb q) as (extra & Et & Hx & _).
      apply (IH _ due); [| |done].
      * rewrite Et, timers_weight_app. simpl. lia.
      * rewrite Et. apply elem_of_app. now left.
Qed.

(** The fuel [advance] gives the event loop is enough: when it has run,
    every timer still pending is due later than [until]. *)
Lemma run_timers_complete until fuel : forall p,
  (timers_weight (timers p) <= fuel)%nat ->
  Forall (fun t => until < fst t) (timers (run_timers fuel until p)).
Proof.
  induction fuel as [|fuel IH]; intros p Hfuel.
  - assert (timers p = []) as E by (apply timers_weight_0; lia).
    simpl. rewrite E. constructor.
  - simpl. destruct (pick (timers p)) as [[[d cb] rest]|] eqn:Hpick.
    2:{ apply pick_None in Hpick. simpl. rewrite Hpick. constructor. }
    pose proof (pick_earliest _ _ _ Hpick) as Hmin. simpl in Hmin.
    pose proof (timers_weight_pick _ _ _ Hpick) as Hw. simpl in Hw.
    destruct (d <=? until) eqn:Ed.
    + set (q := with_clock (Z.max (clock p) d) (with_timers rest p)).
      destruct (fire_timers cb q) as (extra & Et & Hx & _).
      apply IH. rewrite Et, timers_weight_app. simpl. lia.
    + apply Z.leb_gt in Ed. simpl.
      eapply Forall_impl; [exact Hmin |]. simpl. intros; lia.
Qed.

Lemma advance_complete dt p :
  Forall (fun t => clock p + Z.of_N dt < fst t) (timers (advance dt p)).
Proof. apply run_timers_complete. done. Qed.



End Removal.

(** ** NotificationCenter: the claims *)

Section Gone.




Lemma query_notification_attached p old :
  query_notification p = Some old -> old ∈ body p.
Proof.
  unfold query_notification. intros H. apply find_some in H as [H _].
  now apply list_elem_of_In.
Qed.

End Gone.

(** C1, counterexample to the claim as stated. After two calls in
    succession one notification is attached, but 5300ms later (the 5000ms
    timeout of the second call and its 300ms exit) none is: it is not the
    case that exactly one is present at every later inspection point. *)
Lemma notification_expires :
  let p2 := run_events empty_page [ShowCall "first" "success"; ShowCall "second" "error"] in
  notifications p2 = [1%nat]
  /\ notifications (run_events p2 [Advance 5300]) = []
  /\ ~ (forall es, length (notifications (run_events p2 es)) = 1%nat).
Proof.
  intros p2. split; [reflexivity |]. split; [vm_compute; reflexivity |].
  intros H. specialize (H [Advance 5300]). vm_compute in H. discriminate.
Qed.



(** C9, as the code has it. The element [show_notification] creates has
    the class [notification notification-<type>] and an inline background
    that is [#10b981] for the type [success] and [#ef4444] for every other
    type: the [error] and the [info] notification get the same inline
    colour, and only their class tells them apart. *)
Theorem notification_style_by_kind :
  (forall msg type p,
      heap (show_notification msg type p) !! next_id p
      = Some (Element ("notification notification-" +:+ type) msg
                (if decide (type = "success") then "#10b981" else "#ef4444")
                "translateX(100%)"))
  /\ notification_background "success" = "#10b981"
  /\ notification_background "error" = "#ef4444"
  /\ notification_background "info" = "#ef4444"
  /\ notification_background "success" <> notification_background "error".
Proof.
  split; [|repeat split; discriminate].
  intros msg type p. rewrite show_notification_eq. cbv zeta. simpl.
  rewrite lookup_insert_eq. unfold notification_background, notification_class_name.
  destruct (String.eqb_spec type "success"); case_decide; done.
Qed.

(** C9, counterexample to the claim as stated. The [info] notification of
    the project links is given an inline background, and it is the one of
    the [error] notification: it is not the case that [info] uses neither
    of the two colours. *)
Lemma info_uses_error_color :
  let shown type := show_notification msg_project_links type empty_page in
  background <$> heap (shown "info") !! 0%nat = Some "#ef4444"
  /\ background <$> heap (shown "info") !! 0%nat
     = background <$> heap (shown "error") !! 0%nat
  /\ ~ (notification_background "info" <> color_success
        /\ notification_background "info" <> color_other).
Proof.
  intros shown. split; [vm_compute; reflexivity |].
  split; [vm_compute; reflexivity |].
  intros [_ H]. apply H. reflexivity.
Qed.

(** ** FormController *)

Section FormController.

Lemma shown_element msg type p :
  heap (show_notification msg type p) !! next_id p
  = Some (Element (notification_class_name type) msg
            (notification_background type) off_screen).
Proof.
  rewrite show_notification_eq. cbv zeta. simpl. apply lookup_insert_eq.
Qed.

Lemma form_reset_cleared f : no_default_values f -> form_cleared (form_reset f).
Proof.
  intros Hd c. unfold form_reset. simpl.
  intros [H|[H|H]]; apply fmap_Some in H as (c0 & H0 & ->); simpl;
    apply Hd; auto.
Qed.

End FormController.

(** C2, as the code has it. When one of the fields [name], [email],
    [message] is the empty string (or its control is missing), or the email
    fails [is_valid_email], the listener shows one notification of the
    [error] kind and returns: the form is left as it is, and the
    notification attached afterwards is that error notification, not a
    success notification. A value is empty only when it has no characters;
    nothing is trimmed. *)
Theorem submit_rejected (f : form) (p : page) :
  js_not (formdata_get (name_control f)) = true
  \/ js_not (formdata_get (email_control f)) = true
  \/ js_not (formdata_get (message_control f)) = true
  \/ is_valid_email (js_to_string (formdata_get (email_control f))) = false ->
  exists msg,
    (msg = msg_fill_in \/ msg = msg_bad_email)
    /\ submit_listener f p = (f, show_notification msg "error" p)
    /\ heap (snd (submit_listener f p)) !! next_id p
       = Some (Element "notification notification-error" msg "#ef4444"
                 "translateX(100%)")
    /\ (page_ok p -> notifications (snd (submit_listener f p)) = [next_id p]).
Proof.
  intros H.
  assert (Hcase :
    submit_listener f p = (f, show_notification msg_fill_in "error" p)
    \/ submit_listener f p = (f, show_notification msg_bad_email "error" p)).
  { unfold submit_listener.
    destruct (js_not (formdata_get (name_control f))) eqn:E1; [now left |].
    destruct (js_not (formdata_get (email_control f))) eqn:E2; [now left |].
    destruct (js_not (formdata_get (message_control f))) eqn:E3; [now left |].
    simpl. destruct H as [H|[H|[H|H]]]; try discriminate.
    rewrite H. now right. }
  destruct Hcase as [E|E]; [exists msg_fill_in | exists msg_bad_email];
    rewrite E; cbn [snd]; (split; [auto |]); (split; [reflexivity |]);
    (split; [apply shown_element |]);
    intros [Hf Hlen]; now apply show_notification_slot.
Qed.

Lemma submit_rejected_witness :
  let f := Form (Some (Control (lit "A") []))
                (Some (Control (lit "bad-email") []))
                (Some (Control (lit "hi") [])) in
  is_valid_email (lit "bad-email") = false
  /\ exists msg,
       submit_listener f empty_page
       = (f, show_notification msg "error" empty_page).
Proof.
  intros f.
  assert (H : is_valid_email (js_to_string (formdata_get (email_control f)))
              = false) by (vm_compute; reflexivity).
  destruct (submit_rejected f empty_page (or_intror (or_intror (or_intror H))))
    as (msg & _ & E & _).
  split; [exact H |]. exists msg. exact E.
Defined.

(** C2, counterexample to the claim as stated. A name made of one space
    is empty under a trimming check, yet the listener accepts the
    submission: it shows the success notification and resets the form. *)
Lemma whitespace_name_is_accepted :
  let f := Form (Some (Control (lit " ") []))
                (Some (Control (lit "a@b.co") []))
                (Some (Control (lit "hi") [])) in
  empty_after_trim (formdata_get (name_control f)) = true
  /\ submit_listener f empty_page
     = (form_reset f, show_notification msg_thanks "success" empty_page)
  /\ form_reset f <> f.
Proof.
  intros f. split; [reflexivity |]. split; [reflexivity |]. discriminate.
Qed.

(** C3, as the code has it. When [name], [email] and [message] are all
    non-empty and the email passes [is_valid_email], the listener shows one
    notification of the [success] kind, which is then the one attached, and
    resets the form: every field goes back to the value the markup declares
    for it. The fields are empty afterwards when the form is declared
    without initial values. *)
Theorem submit_accepted (f : form) (p : page) (name email message : js_string) :
  formdata_get (name_control f) = Some name -> name <> [] ->
  formdata_get (email_control f) = Some email -> email <> [] ->
  formdata_get (message_control f) = Some message -> message <> [] ->
  is_valid_email email = true ->
  submit_listener f p = (form_reset f, show_notification msg_thanks "success" p)
  /\ heap (snd (submit_listener f p)) !! next_id p
     = Some (Element "notification notification-success" msg_thanks "#10b981"
               "translateX(100%)")
  /\ (page_ok p -> notifications (snd (submit_listener f p)) = [next_id p])
  /\ (formdata_get (name_control (fst (submit_listener f p)))
        = defaultValue <$> name_control f
      /\ formdata_get (email_control (fst (submit_listener f p)))
        = defaultValue <$> email_control f
      /\ formdata_get (message_control (fst (submit_listener f p)))
        = defaultValue <$> message_control f)
  /\ (no_default_values f -> form_cleared (fst (submit_listener f p))).
Proof.
  intros En Hn Ee He Em Hm Hv.
  assert (E : submit_listener f p
              = (form_reset f, show_notification msg_thanks "success" p)).
  { unfold submit_listener. rewrite En, Ee, Em. simpl. rewrite Hv.
    destruct name, email, message; done. }
  rewrite E. cbn [fst snd]. split; [reflexivity |].
  split; [apply shown_element |]. split; [|split].
  - intros [Hf Hlen]. now apply show_notification_slot.
  - unfold form_reset, formdata_get. simpl.
    destruct (name_control f), (email_control f), (message_control f); done.
  - apply form_reset_cleared.
Qed.

Lemma submit_accepted_witness :
  let f := Form (Some (Control (lit "A") []))
                (Some (Control (lit "a@b.co") []))
                (Some (Control (lit "hi") [])) in
  submit_listener f empty_page
  = (Form (Some (Control [] [])) (Some (Control [] [])) (Some (Control [] [])),
     show_notification msg_thanks "success" empty_page).
Proof.
  intros f.
  assert (Hn : lit "A" <> []) by discriminate.
  assert (He : lit "a@b.co" <> []) by discriminate.
  assert (Hm : lit "hi" <> []) by discriminate.
  destruct (submit_accepted f empty_page (lit "A") (lit "a@b.co") (lit "hi")
              eq_refl Hn eq_refl He eq_refl Hm eq_refl) as (E & _).
  exact E.
Defined.

(** C3, counterexample to the claim as stated. On a form whose markup
    declares initial values an accepted submission does not leave the fields
    empty: [reset()] puts the declared values back. *)
Lemma reset_restores_declared_values :
  let f := Form (Some (Control (lit "A") (lit "Bob")))
                (Some (Control (lit "a@b.co") (lit "x@y.z")))
                (Some (Control (lit "hi") (lit "dflt"))) in
  is_valid_email (lit "a@b.co") = true
  /\ snd (submit_listener f empty_page)
     = show_notification msg_thanks "success" empty_page
  /\ fst (submit_listener f empty_page)
     = Form (Some (Control (lit "Bob") (lit "Bob")))
            (Some (Control (lit "x@y.z") (lit "x@y.z")))
            (Some (Control (lit "dflt") (lit "dflt")))
  /\ ~ form_cleared (fst (submit_listener f empty_page)).
Proof.
  intros f. split; [vm_compute; reflexivity |].
  split; [reflexivity |]. split; [reflexivity |].
  intros H. specialize (H (Control (lit "Bob") (lit "Bob"))).
  simpl in H. discriminate H. left. reflexivity.
Qed.

(** ** Class lists *)

Section ClassList.

Lemma class_contains_remove c l : class_contains c (class_remove c l) = false.
Proof.
  unfold class_contains, class_remove.
  induction l as [|d l IH]; simpl; [done |].
  destruct (String.eqb c d) eqn:E; simpl; [done |]. now rewrite E.
Qed.

Lemma class_contains_append c l : class_contains c (l ++ [c]) = true.
Proof.
  unfold class_contains. rewrite existsb_app. simpl.
  rewrite String.eqb_refl. apply orb_true_iff. right. done.
Qed.

Lemma class_contains_add c l : class_contains c (class_add c l) = true.
Proof.
  unfold class_add. destruct (class_contains c l) eqn:E; [done |].
  apply class_contains_append.
Qed.

Lemma class_contains_toggle c l :
  class_contains c (class_toggle c l) = negb (class_contains c l).
Proof.
  unfold class_toggle. destruct (class_contains c l) eqn:E; simpl.
  - apply class_contains_remove.
  - apply class_contains_append.
Qed.

End ClassList.

(** ** NavigationController *)

(** C6. With the toggle button and the menu in the document, the menu is
    a machine with the two states closed and open. Every event is handled
    without error and leaves both elements in place. The menu is closed
    after a click outside both the toggle and the menu, after a click on a
    navigation link, after an activation of the toggle button when it was
    open, and after the viewport width went from at most 768 to more than
    768. It is open after an activation of the toggle button when it was
    closed, and no other event takes it from closed to open. *)
Theorem mobile_menu_state_machine (s : nav) :
  setup_mobile_navigation s = true ->
  (forall e, exists s',
      nav_handle s e = Ok s' /\ setup_mobile_navigation s' = true)
  /\ menu_after s (OtherClick false) = Some false
  /\ (forall in_menu, menu_after s (NavLinkClick in_menu) = Some false)
  /\ (menu_open s = true -> menu_after s ToggleClick = Some false)
  /\ (forall width,
        innerWidth s <= 768 -> 768 < width ->
        menu_after s (Resize width) = Some false)
  /\ (menu_open s = false -> menu_after s ToggleClick = Some true)
  /\ (forall e,
        menu_open s = false -> menu_after s e = Some true -> e = ToggleClick).
Proof.
  destruct s as [[t|] [m|] w]; try discriminate. intros _.
  unfold menu_after, menu_open. simpl.
  repeat split.
  - intros [|in_menu|in_menu|width]; simpl.
    + eexists; split; reflexivity.
    + destruct in_menu; eexists; split; reflexivity.
    + destruct in_menu; eexists; split; reflexivity.
    + unfold resize_listener. simpl.
      destruct (width >? 768); eexists; split; reflexivity.
  - now rewrite class_contains_remove.
  - intros in_menu. destruct in_menu; simpl;
      now rewrite ?class_contains_remove.
  - intros Ho. now rewrite class_contains_toggle, Ho.
  - intros width _ Hw. unfold resize_listener. simpl.
    replace (width >? 768) with true by (symmetry; apply Z.gtb_lt; lia).
    simpl. now rewrite class_contains_remove.
  - intros Hc. now rewrite class_contains_toggle, Hc.
  - intros e Hc. destruct e as [|in_menu|in_menu|width]; simpl; [done | | |].
    + destruct in_menu; simpl; rewrite ?class_contains_remove; congruence.
    + destruct in_menu; simpl; rewrite ?class_contains_remove; congruence.
    + unfold resize_listener. simpl. destruct (width >? 768); simpl;
        rewrite ?class_contains_remove; congruence.
Qed.

Lemma mobile_menu_witness :
  let closed := Nav (Some ["nav-toggle"]) (Some ["nav-menu"]) 375 in
  let opened := Nav (Some ["nav-toggle"; "active"]) (Some ["nav-menu"; "active"]) 375 in
  nav_handle closed ToggleClick = Ok opened
  /\ menu_after closed ToggleClick = Some true
  /\ menu_after opened ToggleClick = Some false
  /\ menu_after opened (Resize 1024) = Some false.
Proof.
  intros closed opened. split; [reflexivity |].
  destruct (mobile_menu_state_machine closed eq_refl)
    as (_ & _ & _ & _ & _ & Hopen & _).
  destruct (mobile_menu_state_machine opened eq_refl)
    as (_ & _ & _ & Hclose & Hresize & _ & _).
  split; [apply Hopen; reflexivity |].
  split; [apply Hclose; reflexivity |].
  apply Hresize; simpl; lia.
Defined.

(** C7, at the failing input. Without the toggle button and the menu the
    three click listeners are not registered and every click leaves the
    state as it is; the [resize] listener is registered all the same, and
    when the viewport is wider than 768 it reads [navToggle.classList] on
    [null]: a [TypeError] escapes. With the toggle button alone, the error
    comes from [navMenu]. *)
Theorem resize_without_nav_elements :
  (forall s e, setup_mobile_navigation s = false ->
               (forall width, e <> Resize width) -> nav_handle s e = Ok s)
  /\ nav_handle (Nav None None 375) (Resize 1024) = TypeError "navToggle"
  /\ nav_handle (Nav (Some ["nav-toggle"]) None 375) (Resize 1024)
     = TypeError "navMenu"
  /\ nav_handle (Nav None None 1024) (Resize 375) = Ok (Nav None None 375).
Proof.
  split; [|repeat split; reflexivity].
  intros s e Hs He. destruct e as [|in_menu|in_menu|width]; simpl;
    rewrite ?Hs; try reflexivity.
  now destruct (He width).
Qed.

Lemma resize_without_nav_elements_witness :
  nav_handle (Nav None None 1024) ToggleClick = Ok (Nav None None 1024)
  /\ nav_handle (Nav None (Some ["nav-menu"]) 1024) (OtherClick false)
     = Ok (Nav None (Some ["nav-menu"]) 1024).
Proof.
  destruct resize_without_nav_elements as (H & _).
  split; apply H; try reflexivity; discriminate.
Defined.

(** ** ScrollEffectsController *)

Section Scroll.

Lemma Qgtb_lt y x : Qgtb y x = true <-> (x < y)%Q.
Proof.
  unfold Qgtb. rewrite negb_true_iff, <- not_true_iff_false, Qle_bool_iff.
  split; [apply Qnot_le_lt | apply Qlt_not_le].
Qed.

End Scroll.

(** C8. On a scroll event the header's [scrolled] flag is set from the
    offset alone, whatever it was before: it is true exactly when the
    vertical offset is greater than 100. Offset 150 gives true, offset 50
    gives false and offset 100 gives false. *)
Theorem header_scrolled_flag :
  (forall (h : class_list) (y : Q),
      exists b, header_scrolled (scroll_listener y (Some h)) = Some b
                /\ (b = true <-> (100 < y)%Q))
  /\ (forall h, header_scrolled (scroll_listener 150 (Some h)) = Some true)
  /\ (forall h, header_scrolled (scroll_listener 50 (Some h)) = Some false)
  /\ (forall h, header_scrolled (scroll_listener 100 (Some h)) = Some false).
Proof.
  assert (Hgen : forall (h : class_list) (y : Q),
             header_scrolled (scroll_listener y (Some h)) = Some (Qgtb y 100)).
  { intros h y. unfold scroll_listener. destruct (Qgtb y 100); simpl.
    - now rewrite class_contains_add.
    - now rewrite class_contains_remove. }
  split; [|repeat split; intros h; rewrite Hgen; reflexivity].
  intros h y. exists (Qgtb y 100). split; [apply Hgen | apply Qgtb_lt].
Qed.

(** * Further properties of the code *)

(** ** Validator *)

Section ValidatorFacts.

Lemma is_valid_email_shape s : is_valid_email s = true <-> email_shape s.
Proof.
  unfold is_valid_email. rewrite test_anchored_spec. apply Matches_email_regex.
Qed.

Lemma not_space_at_spec c :
  not_space_at c = true <-> is_js_space c = false /\ c <> code_at.
Proof.
  unfold not_space_at.
  rewrite andb_true_iff, !negb_true_iff, N.eqb_neq. done.
Qed.

Lemma count_at_ok (u : js_string) :
  Forall (fun c => not_space_at c = true) u ->
  count_occ N.eq_dec u code_at = 0%nat.
Proof.
  intros H. apply count_occ_not_In. intros Hin.
  rewrite Forall_forall in H. apply list_elem_of_In in Hin.
  apply H, not_space_at_spec in Hin as [_ Hne]. done.
Qed.

Lemma no_space_ok (u : js_string) :
  Forall (fun c => not_space_at c = true) u ->
  Forall (fun c => is_js_space c = false) u.
Proof.
  intros H. eapply Forall_impl; [exact H |].
  intros c Hc. now apply not_space_at_spec in Hc as [? _].
Qed.

End ValidatorFacts.

(** X1. An address [is_valid_email] accepts contains exactly one [@], no
    white space of any kind, and at least five characters. *)
Theorem valid_email_one_at (s : js_string) :
  is_valid_email s = true ->
  count_occ N.eq_dec s code_at = 1%nat
  /\ Forall (fun c => is_js_space c = false) s
  /\ (5 <= length s)%nat.
Proof.
  intros H. apply is_valid_email_shape in H
    as (u & v & w & -> & Hu & Hv & Hw & Fu & Fv & Fw).
  split; [|split].
  - rewrite !count_occ_app.
    rewrite (count_at_ok u), (count_at_ok v), (count_at_ok w) by done.
    reflexivity.
  - rewrite !Forall_app. repeat split; try now apply no_space_ok.
    + repeat constructor.
    + repeat constructor.
  - rewrite !length_app. simpl.
    destruct u, v, w; simpl; try done; lia.
Qed.

Lemma valid_email_one_at_witness :
  count_occ N.eq_dec (lit "jane.doe@mail.example.org") code_at = 1%nat.
Proof.
  apply (valid_email_one_at (lit "jane.doe@mail.example.org")).
  vm_compute. reflexivity.
Defined.

(** X2. [is_valid_email] has no length or top-level-domain check: an
    accepted address stays accepted when any characters that are neither
    white space nor [@] are put before it or after it. *)
Theorem valid_email_extends (s t : js_string) :
  is_valid_email s = true ->
  Forall (fun c => not_space_at c = true) t ->
  is_valid_email (s ++ t) = true /\ is_valid_email (t ++ s) = true.
Proof.
  intros H Ht. apply is_valid_email_shape in H
    as (u & v & w & -> & Hu & Hv & Hw & Fu & Fv & Fw).
  split; apply is_valid_email_shape.
  - exists u, v, (w ++ t). repeat split; try done.
    + now rewrite <- !app_assoc.
    + destruct w; done.
    + now apply Forall_app.
  - exists (t ++ u), v, w. repeat split; try done.
    + now rewrite <- !app_assoc.
    + destruct t, u; done.
    + now apply Forall_app.
Qed.

Lemma valid_email_extends_witness :
  is_valid_email (lit "a@b.co" ++ lit "m..") = true
  /\ is_valid_email (lit "m.." ++ lit "a@b.co") = true.
Proof.
  apply (valid_email_extends (lit "a@b.co") (lit "m..")).
  - vm_compute. reflexivity.
  - repeat constructor.
Defined.

(** ** Class lists: what the three operations leave alone *)

Section ClassListFacts.

Lemma class_contains_app c l1 l2 :
  class_contains c (l1 ++ l2) = class_contains c l1 || class_contains c l2.
Proof. apply existsb_app. Qed.

Lemma class_contains_remove_other c d l :
  c <> d -> class_contains c (class_remove d l) = class_contains c l.
Proof.
  intros Hne. unfold class_contains, class_remove.
  induction l as [|x l IH]; simpl; [done |].
  destruct (String.eqb_spec d x) as [<-|Hdx]; simpl.
  - rewrite IH. now destruct (String.eqb_spec c d).
  - now rewrite IH.
Qed.

Lemma class_contains_add_other c d l :
  c <> d -> class_contains c (class_add d l) = class_contains c l.
Proof.
  intros Hne. unfold class_add. destruct (class_contains d l); [done |].
  rewrite class_contains_app. simpl.
  destruct (String.eqb_spec c d); [done |]. now rewrite !orb_false_r.
Qed.

Lemma class_contains_toggle_other c d l :
  c <> d -> class_contains c (class_toggle d l) = class_contains c l.
Proof.
  intros Hne. unfold class_toggle. destruct (class_contains d l).
  - now apply class_contains_remove_other.
  - rewrite class_contains_app. simpl.
    destruct (String.eqb_spec c d); [done |]. now rewrite !orb_false_r.
Qed.

Lemma class_add_idem c l : class_add c (class_add c l) = class_add c l.
Proof.
  unfold class_add at 1. now rewrite class_contains_add.
Qed.

Lemma class_remove_absent c l :
  class_contains c l = false -> class_remove c l = l.
Proof.
  unfold class_contains, class_remove.
  induction l as [|x l IH]; simpl; [done |].
  rewrite orb_false_iff. intros [-> Hl]. simpl. now rewrite IH.
Qed.

Lemma class_remove_idem c l :
  class_remove c (class_remove c l) = class_remove c l.
Proof. apply class_remove_absent, class_contains_remove. Qed.

Lemma class_add_present c l : class_contains c l = true -> class_add c l = l.
Proof. intros H. unfold class_add. now rewrite H. Qed.

End ClassListFacts.

(** ** ScrollEffectsController *)

(** X3. The scroll listener raises exactly when the page has no
    [.header]. With a header it only ever touches the class [scrolled]:
    every other class is kept, and a second scroll event at the same offset
    leaves the class list exactly as the first one made it. *)
Theorem scroll_listener_settles (y : Q) (header : option class_list) :
  match scroll_listener y header with
  | Ok h' =>
      exists h, header = Some h
        /\ scroll_listener y (Some h') = Ok h'
        /\ forall c, c <> "scrolled" ->
                     class_contains c h' = class_contains c h
  | TypeError _ => header = None
  end.
Proof.
  unfold scroll_listener. destruct header as [h|]; simpl.
  - destruct (Qgtb y 100); simpl; exists h; (split; [reflexivity |]); split.
    + now rewrite class_add_idem.
    + intros c Hc. now apply class_contains_add_other.
    + now rewrite class_remove_idem.
    + intros c Hc. now apply class_contains_remove_other.
  - destruct (Qgtb y 100); reflexivity.
Qed.

(** ** The fade-in observer *)

Section Observer.

Lemma observer_callback_cons e entries els :
  observer_callback (e :: entries) els
  = observer_callback entries
      (if isIntersecting e
       then alter (class_add "animate-in") (target e) els else els).
Proof. reflexivity. Qed.

Lemma observer_callback_lookup entries : forall els m,
  observer_callback entries els !! m
  = (fun l => if intersected m entries then class_add "animate-in" l else l)
      <$> els !! m.
Proof.
  induction entries as [|[t i] entries IH]; intros els m.
  - simpl. now destruct (els !! m).
  - rewrite observer_callback_cons, IH. simpl. destruct i; simpl; [|done].
    rewrite lookup_alter. destruct (Nat.eqb_spec t m) as [->|Hne].
    + rewrite decide_True by done. destruct (els !! m) as [l|]; simpl; [|done].
      destruct (intersected m entries); [now rewrite class_add_idem | done].
    + now rewrite decide_False by done.
Qed.

End Observer.

(** X4. After the observer callback ran on a batch of entries, an
    observed element carries [animate-in] exactly when it carried it before
    or an entry of the batch reports it as intersecting; its other classes
    are as before, and no element appears or disappears. So the class, once
    set, survives every later batch, also one that reports the element as no
    longer intersecting. *)
Theorem fade_in_is_permanent (entries : list entry)
    (elements : gmap nat class_list) (m : nat) :
  match elements !! m with
  | Some l =>
      exists l', observer_callback entries elements !! m = Some l'
        /\ class_contains "animate-in" l'
           = class_contains "animate-in" l || intersected m entries
        /\ (forall c, c <> "animate-in" ->
                      class_contains c l' = class_contains c l)
        /\ (class_contains "animate-in" l = true -> l' = l)
  | None => observer_callback entries elements !! m = None
  end.
Proof.
  rewrite observer_callback_lookup. destruct (elements !! m) as [l|]; simpl;
    [|reflexivity].
  eexists. split; [reflexivity |]. destruct (intersected m entries).
  - rewrite class_contains_add, orb_true_r. repeat split.
    + intros c Hc. now apply class_contains_add_other.
    + apply class_add_present.
  - rewrite orb_false_r. repeat split.
Qed.

Lemma fade_in_is_permanent_witness :
  let elements : gmap nat class_list := {[ 7%nat := ["project-card"] ]} in
  let seen := observer_callback [Entry 7 true] elements in
  seen !! 7%nat = Some ["project-card"; "animate-in"]
  /\ observer_callback [Entry 7 false] seen !! 7%nat
     = Some ["project-card"; "animate-in"].
Proof.
  intros elements seen. split; [vm_compute; reflexivity |].
  pose proof (fade_in_is_permanent [Entry 7 false] seen 7) as H.
  replace (seen !! 7%nat) with (Some ["project-card"; "animate-in"]) in H
    by (vm_compute; reflexivity).
  destruct H as (l' & E & _ & _ & Hsame).
  rewrite <- (Hsame eq_refl). exact E.
Defined.

(** ** NavigationController: every event, every sequence *)

Section NavFacts.

(** An event that is handled leaves the two class lists alone, toggles
    [active] on both, or removes [active] from both. *)
Lemma nav_handle_shape s e s' :
  nav_handle s e = Ok s' ->
  (navToggle s' = navToggle s /\ navMenu s' = navMenu s)
  \/ (exists t m, navToggle s = Some t /\ navMenu s = Some m
        /\ navToggle s' = Some (class_toggle "active" t)
        /\ navMenu s' = Some (class_toggle "active" m))
  \/ (exists t m, navToggle s = Some t /\ navMenu s = Some m
        /\ navToggle s' = Some (class_remove "active" t)
        /\ navMenu s' = Some (class_remove "active" m)).
Proof.
  destruct s as [[t|] [m|] w]; destruct e as [|[|]|[|]|width]; simpl;
    unfold resize_listener; simpl; try destruct (width >? 768); simpl;
    intros [= <-]; simpl; rewrite ?class_remove_idem; eauto 10.
Qed.

Lemma nav_handle_in_sync s e s' :
  nav_handle s e = Ok s' -> in_sync s -> in_sync s'.
Proof.
  intros H Hs. apply nav_handle_shape in H
    as [[Et Em]|[(t & m & Et & Em & Et' & Em')|(t & m & Et & Em & Et' & Em')]];
    unfold in_sync; rewrite ?Et, ?Em, ?Et', ?Em'; [exact Hs | |];
    intros t' m' [= <-] [= <-].
  - rewrite !class_contains_toggle. f_equal. now apply Hs.
  - now rewrite !class_contains_remove.
Qed.

Lemma nav_handle_other_classes s e s' c :
  c <> "active" -> nav_handle s e = Ok s' ->
  class_contains c <$> navToggle s' = class_contains c <$> navToggle s
  /\ class_contains c <$> navMenu s' = class_contains c <$> navMenu s.
Proof.
  intros Hc H. apply nav_handle_shape in H
    as [[Et Em]|[(t & m & Et & Em & Et' & Em')|(t & m & Et & Em & Et' & Em')]];
    rewrite ?Et, ?Em, ?Et', ?Em'; simpl; [done | |].
  - now rewrite !class_contains_toggle_other.
  - now rewrite !class_contains_remove_other.
Qed.

Lemma nav_handle_installed s e :
  setup_mobile_navigation s = true ->
  exists s', nav_handle s e = Ok s' /\ setup_mobile_navigation s' = true.
Proof.
  destruct s as [[t|] [m|] w]; try discriminate. intros _.
  destruct e as [|[|]|[|]|width]; simpl; unfold resize_listener; simpl;
    try destruct (width >? 768); simpl; eauto.
Qed.

End NavFacts.

(** X5. The only event of the navigation controller that can raise is a
    resize: [nav_handle] ends in a [TypeError] exactly when the toggle
    button or the menu is missing and the event is a resize to a width above
    768. Every click, and every resize to 768 or less, returns. *)
Theorem nav_raises_only_on_wide_resize (s : nav) (e : nav_event) :
  (exists what, nav_handle s e = TypeError what)
  <-> (setup_mobile_navigation s = false
       /\ exists width, e = Resize width /\ 768 < width).
Proof.
  split.
  - intros [what H].
    destruct (setup_mobile_navigation s) eqn:Es.
    + destruct (nav_handle_installed s e Es) as (s' & E & _). congruence.
    + split; [reflexivity |].
      destruct e as [|in_menu|in_menu|width]; simpl in H; rewrite ?Es in H;
        try discriminate.
      exists width. split; [reflexivity |].
      unfold resize_listener in H. simpl in H.
      destruct (width >? 768) eqn:Ew; [|discriminate].
      now apply Z.gtb_lt in Ew.
  - intros [Es (width & -> & Hw)]. simpl. unfold resize_listener. simpl.
    replace (width >? 768) with true by (symmetry; apply Z.gtb_lt; lia).
    destruct s as [[t|] [m|] w]; try discriminate; simpl; eauto.
Qed.

(** X6. When the toggle button and the menu are present and their
    [active] flags agree, every sequence of clicks and resizes is handled
    without error and leaves the two flags in agreement: the button never
    shows the menu as open while it is closed, or the reverse. *)
Theorem nav_flags_stay_in_sync (es : list nav_event) : forall s : nav,
  setup_mobile_navigation s = true -> in_sync s ->
  exists s', nav_run s es = Ok s'
             /\ setup_mobile_navigation s' = true /\ in_sync s'.
Proof.
  induction es as [|e es IH]; intros s Hs Hsync; simpl.
  - now exists s.
  - destruct (nav_handle_installed s e Hs) as (s1 & E & Hs1).
    rewrite E. simpl. apply IH; [done |].
    now apply (nav_handle_in_sync s e).
Qed.

Lemma nav_flags_stay_in_sync_witness :
  exists s',
    nav_run (Nav (Some ["nav-toggle"]) (Some ["nav-menu"]) 375)
            [ToggleClick; OtherClick true; Resize 1024; ToggleClick;
             ToggleClick; NavLinkClick true]
    = Ok s' /\ in_sync s'.
Proof.
  assert (Hsync : in_sync (Nav (Some ["nav-toggle"]) (Some ["nav-menu"]) 375)).
  { intros t m [= <-] [= <-]. reflexivity. }
  destruct (nav_flags_stay_in_sync
              [ToggleClick; OtherClick true; Resize 1024; ToggleClick;
               ToggleClick; NavLinkClick true]
              (Nav (Some ["nav-toggle"]) (Some ["nav-menu"]) 375)
              eq_refl Hsync) as (s' & E & _ & Hs').
  exists s'. split; [exact E | exact Hs'].
Defined.

(** X7. No event of the navigation controller touches a class other than
    [active]: after any sequence of events that is handled, the toggle
    button and the menu carry every other class exactly as before, and an
    element that was missing is still missing. *)
Theorem nav_keeps_other_classes (es : list nav_event) :
  forall (s s' : nav) (c : string),
  c <> "active" -> nav_run s es = Ok s' ->
  class_contains c <$> navToggle s' = class_contains c <$> navToggle s
  /\ class_contains c <$> navMenu s' = class_contains c <$> navMenu s.
Proof.
  induction es as [|e es IH]; intros s s' c Hc; simpl.
  - intros [= <-]. done.
  - destruct (nav_handle s e) as [s1|] eqn:E; simpl; [|discriminate].
    intros H. destruct (IH s1 s' c Hc H) as [-> ->].
    now apply (nav_handle_other_classes s e).
Qed.

Lemma nav_keeps_other_classes_witness :
  let s := Nav (Some ["nav-toggle"; "dark"]) (Some ["nav-menu"]) 375 in
  let s' := Nav (Some ["nav-toggle"; "dark"; "active"])
                (Some ["nav-menu"; "active"]) 375 in
  nav_run s [ToggleClick; ToggleClick; ToggleClick] = Ok s'
  /\ class_contains "dark" <$> navToggle s'
     = class_contains "dark" <$> navToggle s.
Proof.
  intros s s'.
  assert (H : nav_run s [ToggleClick; ToggleClick; ToggleClick] = Ok s')
    by reflexivity.
  assert (Hc : "dark" <> "active") by discriminate.
  split; [exact H |].
  exact (proj1 (nav_keeps_other_classes _ s s' "dark" Hc H)).
Defined.

(** ** [add_loading_state] *)

Section LoadingState.

Lemma add_loading_states_eq k b :
  add_loading_states (S k) b
  = (Button loading_text true, replicate k loading_text ++ [textContent b]).
Proof.
  induction k as [|k IH].
  - reflexivity.
  - change (add_loading_states (S (S k)) b)
      with (let '(b1, captured) := add_loading_states (S k) b in
            let '(b2, original_text) := add_loading_state b1 in
            (b2, original_text :: captured)).
    rewrite IH. reflexivity.
Qed.

Lemma remove_loading_states_last captured original_text b :
  remove_loading_states (captured ++ [original_text]) b
  = Button original_text false.
Proof.
  unfold remove_loading_states. rewrite fold_left_app. reflexivity.
Qed.

End LoadingState.

(** X8. After one or more calls of [add_loading_state] on a button it is
    labelled [Loading...] and disabled. Running the returned closures
    latest first ends with the label the button had before the first call;
    running them in the order they were handed out ends with the label
    [Loading...] as soon as there were two calls. Either way the button ends
    enabled, also when it was disabled before the first call: the closure
    does not remember that. *)
Theorem loading_states_unwind (k : nat) (b : button) :
  let '(loading, captured) := add_loading_states (S k) b in
  loading = Button loading_text true
  /\ remove_loading_states captured loading = Button (textContent b) false
  /\ remove_loading_states (rev captured) loading
     = Button (match k with O => textContent b | S _ => loading_text end) false.
Proof.
  rewrite add_loading_states_eq. split; [reflexivity |]. split.
  - apply remove_loading_states_last.
  - rewrite rev_app_distr. destruct k as [|k]; [reflexivity |].
    simpl. apply remove_loading_states_last.
Qed.

(** ** SmoothScrollController *)

(** X9. The smooth-scroll listener always suppresses the default
    navigation, before anything else can go wrong. It scrolls exactly when
    the target is found and the page has a header, and then to the position
    [headerHeight] above the target's [offsetTop]; it raises exactly when
    the selector does not parse or the target is found and the header is
    missing; a missing header is not an error when there is no target. *)
Theorem smooth_scroll_outcomes (targetSection : query_result) (header : option Z) :
  fst (smooth_scroll_listener targetSection header) = true
  /\ (forall top,
        snd (smooth_scroll_listener targetSection header) = ScrollTo top
        <-> exists offsetTop headerHeight,
              targetSection = Match offsetTop /\ header = Some headerHeight
              /\ top + headerHeight = offsetTop)
  /\ ((exists name, snd (smooth_scroll_listener targetSection header) = Raised name)
      <-> targetSection = InvalidSelector
          \/ (header = None /\ exists offsetTop, targetSection = Match offsetTop))
  /\ (snd (smooth_scroll_listener targetSection header) = NoScroll
      <-> targetSection = NoMatch).
Proof.
  split; [reflexivity |].
  destruct targetSection as [| |off], header as [h|]; simpl;
    (split; [intros top; split;
               [intros [= <-] || discriminate
               | intros (o & h' & Eo & Eh & Et); try discriminate] |]).
  all: try (split; [split; [intros [name H]; try discriminate; eauto
                           | intros [H|[H [o Ho]]]; try discriminate; eauto]
                   | split; intros H; try discriminate; try reflexivity]).
  - exists off, h. repeat split. lia.
  - injection Eo as <-. injection Eh as <-. f_equal. lia.
Qed.

(** ** FormController: blank addresses, repeated submissions *)

Section FormFacts.

Lemma valid_email_no_space s :
  is_valid_email s = true -> Forall (fun c => is_js_space c = false) s.
Proof.
  intros H. apply is_valid_email_shape in H
    as (u & v & w & -> & _ & _ & _ & Fu & Fv & Fw).
  rewrite !Forall_app.
  repeat split; try now apply no_space_ok.
  - repeat constructor.
  - repeat constructor.
Qed.

Lemma blank_not_valid s : blank s = true -> is_valid_email s = false.
Proof.
  intros Hb. destruct (is_valid_email s) eqn:E; [|reflexivity].
  destruct s as [|c s]; [discriminate |].
  apply valid_email_no_space in E. inversion E as [|? ? Hc _]; subst.
  simpl in Hb. rewrite Hc in Hb. discriminate.
Qed.

Lemma submit_listener_shows f p :
  exists msg type,
    snd (submit_listener f p) = show_notification msg type p.
Proof.
  unfold submit_listener.
  destruct (js_not _ || js_not _ || js_not _); [simpl; eauto |].
  destruct (negb _); simpl; eauto.
Qed.

Lemma next_id_show_notification msg type p :
  next_id (show_notification msg type p) = S (next_id p).
Proof. now rewrite show_notification_eq. Qed.

End FormFacts.

(** X10. A submission whose email is missing or consists of white space
    only is always rejected with an error notification and the form is left
    as it is, whatever the name and the message are: for the email the
    pattern does what the emptiness test does not. *)
Theorem blank_email_is_rejected (f : form) (p : page) :
  empty_after_trim (formdata_get (email_control f)) = true ->
  exists msg,
    (msg = msg_fill_in \/ msg = msg_bad_email)
    /\ submit_listener f p = (f, show_notification msg "error" p).
Proof.
  intros Hb. unfold submit_listener.
  destruct (js_not (formdata_get (name_control f))
            || js_not (formdata_get (email_control f))
            || js_not (formdata_get (message_control f))); [eauto |].
  destruct (formdata_get (email_control f)) as [s|]; simpl in *.
  - rewrite (blank_not_valid s Hb). simpl. eauto.
  - eauto.
Qed.

Lemma blank_email_is_rejected_witness :
  let f := Form (Some (Control (lit "A") []))
                (Some (Control [32; 9; 160]%N []))
                (Some (Control (lit "hi") [])) in
  exists msg, submit_listener f empty_page
              = (f, show_notification msg "error" empty_page).
Proof.
  intros f.
  destruct (blank_email_is_rejected f empty_page eq_refl) as (msg & _ & E).
  exists msg. exact E.
Defined.

(** X11. Submitting twice in a row: when the first submission is
    accepted and the form is declared without initial values, the reset
    empties it, so a second submission right after is rejected with the
    [Please fill in all fields] error, which replaces the success
    notification as the one attached. *)
Theorem second_submit_is_rejected (f : form) (p : page)
    (name email message : js_string) :
  formdata_get (name_control f) = Some name -> name <> [] ->
  formdata_get (email_control f) = Some email -> email <> [] ->
  formdata_get (message_control f) = Some message -> message <> [] ->
  is_valid_email email = true ->
  no_default_values f ->
  let '(f1, p1) := submit_listener f p in
  p1 = show_notification msg_thanks "success" p
  /\ submit_listener f1 p1 = (f1, show_notification msg_fill_in "error" p1)
  /\ (page_ok p ->
      notifications (snd (submit_listener f1 p1)) = [S (next_id p)]).
Proof.
  intros En Hn Ee He Em Hm Hv Hd.
  assert (E : submit_listener f p
              = (form_reset f, show_notification msg_thanks "success" p)).
  { unfold submit_listener. rewrite En, Ee, Em. simpl. rewrite Hv.
    destruct name, email, message; done. }
  rewrite E. split; [reflexivity |].
  assert (E1 : forall q, submit_listener (form_reset f) q
                         = (form_reset f, show_notification msg_fill_in "error" q)).
  { intros q. unfold submit_listener, form_reset. simpl.
    destruct (name_control f) as [c|] eqn:Ec; [|discriminate]. simpl.
    rewrite (Hd c) by auto. reflexivity. }
  split; [apply E1 |]. intros Hok. rewrite E1. cbn [snd].
  pose proof (page_ok_step p (ShowCall msg_thanks "success") Hok) as [Hf Hlen].
  simpl in Hf, Hlen.
  rewrite show_notification_slot by done.
  now rewrite next_id_show_notification.
Qed.

Lemma second_submit_is_rejected_witness :
  let f := Form (Some (Control (lit "A") []))
                (Some (Control (lit "a@b.co") []))
                (Some (Control (lit "hi") [])) in
  let '(f1, p1) := submit_listener f empty_page in
  submit_listener f1 p1 = (f1, show_notification msg_fill_in "error" p1).
Proof.
  intros f.
  assert (Hn : lit "A" <> []) by discriminate.
  assert (He : lit "a@b.co" <> []) by discriminate.
  assert (Hm : lit "hi" <> []) by discriminate.
  assert (Hd : no_default_values f).
  { intros c [H|[H|H]]; injection H as <-; reflexivity. }
  pose proof (second_submit_is_rejected f empty_page (lit "A") (lit "a@b.co")
                (lit "hi") eq_refl Hn eq_refl He eq_refl Hm eq_refl Hd) as H.
  destruct (submit_listener f empty_page) as [f1 p1].
  exact (proj1 (proj2 H)).
Defined.

(** ** The page as a whole: forms, project links and the notification slot *)

Section WholePage.

Lemma page_ok_ui_step s e : page_ok (snd s) -> page_ok (snd (ui_step s e)).
Proof.
  destruct s as [contactForm p]. simpl. intros Hok.
  destruct e as [fld v| |href|ev]; simpl.
  - exact Hok.
  - destruct contactForm as [f|]; [|exact Hok].
    destruct (submit_listener_shows f p) as (msg & type & E).
    destruct (submit_listener f p) as [f' p']. simpl in *. subst p'.
    apply (page_ok_step p (ShowCall msg type) Hok).
  - unfold project_link_listener. case_bool_decide; simpl; [|exact Hok].
    apply (page_ok_step p (ShowCall _ _) Hok).
  - now apply page_ok_step.
Qed.

Lemma page_ok_ui_run es : forall s, page_ok (snd s) -> page_ok (snd (ui_run s es)).
Proof.
  induction es as [|e es IH]; intros s Hs; simpl; [done |].
  apply IH, page_ok_ui_step, Hs.
Qed.

End WholePage.

(** X12. Whatever the user does, in any order (typing into the form,
    submitting it, clicking project links, closing notifications, waiting),
    at most one notification is attached afterwards; and right after a
    submission of the contact form, or a click on a project link whose
    [href] is [#], exactly one is. *)
Theorem ui_keeps_one_notification (es : list ui_event)
    (contactForm : option form) (p : page) :
  page_ok p ->
  (length (notifications (snd (ui_run (contactForm, p) es))) <= 1)%nat
  /\ (is_Some (fst (ui_run (contactForm, p) es)) ->
      length (notifications (snd (ui_run (contactForm, p) (es ++ [UiSubmit]))))
      = 1%nat)
  /\ length (notifications
               (snd (ui_run (contactForm, p)
                            (es ++ [UiProjectLink (Some (lit "#"))]))))
     = 1%nat.
Proof.
  intros Hok.
  pose proof (page_ok_ui_run es (contactForm, p) Hok) as Hs.
  split; [apply Hs |].
  unfold ui_run in *. rewrite !fold_left_app. simpl.
  destruct (fold_left ui_step es (contactForm, p)) as [cf q]. simpl in *.
  destruct Hs as [Hf Hlen]. split.
  - intros [f ->].
    destruct (submit_listener_shows f q) as (msg & type & E).
    destruct (submit_listener f q) as [f' q']. simpl in *. subst q'.
    now rewrite show_notification_slot.
  - now rewrite show_notification_slot.
Qed.

Lemma ui_keeps_one_notification_witness :
  let f := Form (Some (Control [] [])) (Some (Control [] []))
                (Some (Control [] [])) in
  let es := [UiSubmit; UiInput FName (lit "A"); UiInput FEmail (lit "a@b.co");
             UiProjectLink (Some (lit "#")); UiInput FMessage (lit "hi");
             UiSubmit; UiNotification (Advance 200); UiSubmit] in
  (length (notifications (snd (ui_run (Some f, empty_page) es))) <= 1)%nat.
Proof.
  intros f es.
  exact (proj1 (ui_keeps_one_notification es (Some f) empty_page page_ok_empty)).
Defined.

(** ** NotificationCenter: the timeline of one notification *)

Section Timeline.

Lemma clock_fire cb q : clock (fire cb q) = clock q.
Proof.
  destruct cb as [n|n|n]; simpl; [done | done |].
  unfold auto_dismiss. destruct (parentNode n q); done.
Qed.

Lemma timers_fire_incl t cb q : t ∈ timers q -> t ∈ timers (fire cb q).
Proof.
  intros H. destruct (fire_timers cb q) as (extra & -> & _).
  apply elem_of_app. now left.
Qed.

Lemma pick_rest_elem ts t rest x :
  pick ts = Some (t, rest) -> x ∈ ts -> x <> t -> x ∈ rest.
Proof.
  intros Hpick Hx Hne. apply pick_Permutation in Hpick.
  rewrite Hpick in Hx. apply elem_of_cons in Hx as [->|Hx]; done.
Qed.

Lemma pick_elem ts t rest : pick ts = Some (t, rest) -> t ∈ ts.
Proof.
  intros Hpick. apply pick_Permutation in Hpick. rewrite Hpick.
  apply elem_of_cons. now left.
Qed.

Lemma pick_rest_Forall (P : timer -> Prop) ts t rest :
  pick ts = Some (t, rest) -> Forall P ts -> P t /\ Forall P rest.
Proof.
  intros Hpick H. apply pick_Permutation in Hpick. rewrite Hpick in H.
  now apply Forall_cons in H.
Qed.

(** A pending timer [t0] that is due fires: what holds while it is
    pending ([I]) and is kept by the timers fired before it, turns, when it
    fires, into [J], which the timers fired after it keep. *)
Lemma run_timers_progress (I J : page -> Prop) (t0 : timer) until :
  (forall q, I q -> t0 ∈ timers q) ->
  (forall q t rest,
      I q -> pick (timers q) = Some (t, rest) -> t <> t0 -> fst t <= until ->
      I (fire (snd t)
           (with_clock (Z.max (clock q) (fst t)) (with_timers rest q)))) ->
  (forall q rest,
      I q -> pick (timers q) = Some (t0, rest) ->
      J (fire (snd t0)
           (with_clock (Z.max (clock q) (fst t0)) (with_timers rest q)))) ->
  (forall q c, J q -> J (with_clock c q)) ->
  (forall q t rest,
      J q -> pick (timers q) = Some (t, rest) -> fst t <= until ->
      J (fire (snd t)
           (with_clock (Z.max (clock q) (fst t)) (with_timers rest q)))) ->
  fst t0 <= until ->
  forall fuel p,
    (timers_weight (timers p) <= fuel)%nat -> I p ->
    J (run_timers fuel until p).
Proof.
  intros Hin Hbefore Hfire Hclock Hafter Hdue.
  induction fuel as [|fuel IH]; intros p Hfuel Hp.
  - assert (timers p = []) as E by (apply timers_weight_0; lia).
    specialize (Hin p Hp). rewrite E in Hin. inversion Hin.
  - simpl. destruct (pick (timers p)) as [[[d cb] rest]|] eqn:Hpick.
    2:{ apply pick_None in Hpick. specialize (Hin p Hp).
        rewrite Hpick in Hin. inversion Hin. }
    pose proof (pick_earliest _ _ _ Hpick) as Hmin.
    rewrite Forall_forall in Hmin. specialize (Hmin _ (Hin p Hp)).
    simpl in Hmin.
    replace (d <=? until) with true by (symmetry; apply Z.leb_le; lia).
    destruct (decide ((d, cb) = t0)) as [<-|Hne].
    + apply run_timers_invariant; [exact Hclock | exact Hafter |].
      exact (Hfire p rest Hp Hpick).
    + apply IH.
      * pose proof (timers_weight_pick _ _ _ Hpick) as Hw. simpl in Hw.
        set (q := with_clock (Z.max (clock p) d) (with_timers rest p)).
        destruct (fire_timers cb q) as (extra & Et & Hx & _).
        rewrite Et, timers_weight_app. simpl. lia.
      * apply (Hbefore p (d, cb) rest Hp Hpick Hne). simpl. lia.
Qed.

(** Firing a callback other than its removal leaves an element attached. *)
Lemma body_fire_other n cb q :
  n ∈ body q -> cb <> RemoveEl n -> n ∈ body (fire cb q).
Proof.
  intros Hb Hne. destruct cb as [m|m|m]; simpl; [done | |].
  - apply filter_other; [congruence | done].
  - unfold auto_dismiss. destruct (parentNode m q); done.
Qed.

Lemma stays_until_fire n until t rest q :
  stays_until n until q -> pick (timers q) = Some (t, rest) ->
  fst t <= until ->
  stays_until n until
    (fire (snd t) (with_clock (Z.max (clock q) (fst t)) (with_timers rest q))).
Proof.
  intros [Hb Ht] Hpick Hdue.
  destruct (pick_rest_Forall _ _ _ _ Hpick Ht) as [[Hr Ha] Hrest].
  destruct t as [d cb]. simpl in *.
  assert (Hcb : cb <> RemoveEl n) by (intros ->; specialize (Hr eq_refl); lia).
  split; [now apply body_fire_other |].
  destruct cb as [m|m|m]; simpl; [done | done |].
  unfold auto_dismiss. simpl.
  destruct (parentNode m _); [|done]. simpl.
  apply Forall_app. split; [done |].
  constructor; [|constructor]. simpl. split; [|congruence].
  intros [= ->]. specialize (Ha eq_refl). lia.
Qed.

Lemma stays_until_run_timers n until fuel p :
  stays_until n until p -> stays_until n until (run_timers fuel until p).
Proof.
  apply run_timers_invariant.
  - intros q c Hq. exact Hq.
  - intros q t rest. apply stays_until_fire.
Qed.

(** An automatic dismissal that is due 300ms or more before [until]
    leaves its element detached at [until]. *)
Lemma auto_dismiss_detaches n due until fuel p :
  (timers_weight (timers p) <= fuel)%nat ->
  (due, AutoDismiss n) ∈ timers p -> clock p <= due -> due + 300 <= until ->
  ~ (n ∈ body (run_timers fuel until p)).
Proof.
  intros Hfuel Hin Hclock Hdue.
  set (I := fun q => (due, AutoDismiss n) ∈ timers q /\ clock q <= due).
  set (J := fun q => ~ (n ∈ body q)
                     \/ exists d, d <= until /\ (d, RemoveEl n) ∈ timers q).
  assert (HJ : J (run_timers fuel until p)).
  { apply (run_timers_progress I J (due, AutoDismiss n) until);
      [ | | | | |simpl; lia|exact Hfuel|split; done].
    - intros q [Hq _]. exact Hq.
    - intros q t rest [Hq Hc] Hpick Hne Ht. split.
      + apply timers_fire_incl. simpl.
        apply (pick_rest_elem _ _ _ _ Hpick Hq). congruence.
      + rewrite clock_fire. simpl.
        pose proof (pick_earliest _ _ _ Hpick) as Hmin.
        rewrite Forall_forall in Hmin. specialize (Hmin _ Hq). simpl in Hmin.
        lia.
    - intros q rest [Hq Hc] Hpick. simpl. unfold auto_dismiss.
      destruct (parentNode n _) eqn:Ep.
      + right. exists (due + 300). split; [done |]. simpl.
        apply elem_of_app. right. apply list_elem_of_singleton.
        f_equal. lia.
      + left. now apply parentNode_false in Ep.
    - intros q c Hq. exact Hq.
    - intros q t rest [Hq|(d & Hd & Hq)] Hpick Ht.
      + left. apply (kept_detached q); [|done].
        eapply kept_trans; [apply (kept_with_timers q rest) |].
        eapply kept_trans; [apply kept_with_clock | apply kept_fire].
      + destruct (decide (t = (d, RemoveEl n))) as [->|Hne].
        * left. simpl. apply filter_not_elem.
        * right. exists d. split; [done |]. apply timers_fire_incl. simpl.
          apply (pick_rest_elem _ _ _ _ Hpick Hq). congruence. }
  destruct HJ as [HJ|(d & Hd & HJ)]; [exact HJ |].
  pose proof (run_timers_complete until fuel p Hfuel) as Hc.
  rewrite Forall_forall in Hc. specialize (Hc _ HJ). simpl in Hc. lia.
Qed.

End Timeline.

Section Transform.

(** The timers a callback schedules are removals of its own element. *)
Lemma fire_timers_extra cb q :
  exists extra,
    timers (fire cb q) = timers q ++ extra
    /\ Forall (fun t => snd t = RemoveEl (callback_target cb)) extra.
Proof.
  destruct cb as [n|n|n]; simpl.
  - exists []. rewrite app_nil_r. split; [done | constructor].
  - exists []. rewrite app_nil_r. split; [done | constructor].
  - unfold auto_dismiss. destruct (parentNode n q).
    + eexists [_]. simpl. split; [reflexivity |]. repeat constructor.
    + exists []. rewrite app_nil_r. split; [done | constructor].
Qed.

Lemma transform_of_set_transform n m t q x :
  transform_of n q = Some x ->
  transform_of n (set_transform m t q) = Some (if decide (m = n) then t else x).
Proof.
  unfold transform_of, set_transform. simpl. rewrite lookup_alter.
  case_decide as E; [subst m|done].
  destruct (heap q !! n); simpl; [|discriminate]. done.
Qed.

(** How one callback changes the [transform] of the element [n]. *)
Lemma transform_of_fire n cb q x :
  transform_of n q = Some x ->
  transform_of n (fire cb q)
  = Some match cb with
         | AnimateIn m => if decide (m = n) then on_screen else x
         | RemoveEl _ => x
         | AutoDismiss m =>
             if parentNode m q
             then (if decide (m = n) then off_screen else x) else x
         end.
Proof.
  intros Hx. destruct cb as [m|m|m]; simpl.
  - now apply transform_of_set_transform.
  - exact Hx.
  - unfold auto_dismiss. destruct (parentNode m q); [|exact Hx].
    change (transform_of n (set_timeout (RemoveEl m) 300
                              (set_transform m off_screen q)))
      with (transform_of n (set_transform m off_screen q)).
    now apply transform_of_set_transform.
Qed.

Lemma not_hidden_until_fire n until t rest q :
  not_hidden_until n until q -> pick (timers q) = Some (t, rest) ->
  not_hidden_until n until
    (fire (snd t) (with_clock (Z.max (clock q) (fst t)) (with_timers rest q))).
Proof.
  unfold not_hidden_until. intros H Hpick.
  destruct (pick_rest_Forall _ _ _ _ Hpick H) as [_ Hrest].
  set (q' := with_clock _ _).
  destruct (fire_timers_extra (snd t) q') as (extra & -> & Hx).
  apply Forall_app. split; [exact Hrest |].
  eapply Forall_impl; [exact Hx |]. simpl. intros x -> ?. discriminate.
Qed.

(** Before its animate-in timer is due an element keeps the transform it
    has, unless it is being dismissed. *)
Lemma transform_before_animate_in n until fuel p :
  transform_of n p = Some off_screen ->
  Forall (fun t => snd t = AnimateIn n -> until < fst t) (timers p) ->
  transform_of n (run_timers fuel until p) = Some off_screen.
Proof.
  intros Hx Ht.
  apply (run_timers_invariant
           (fun q => transform_of n q = Some off_screen
                     /\ Forall (fun t => snd t = AnimateIn n -> until < fst t)
                               (timers q)) until); [| |split; done].
  - intros q c Hq. exact Hq.
  - intros q [d cb] rest [Hq Hf] Hpick Hd. simpl in *.
    destruct (pick_rest_Forall _ _ _ _ Hpick Hf) as [Hcb Hrest]. simpl in Hcb.
    set (q' := with_clock _ _). split.
    + rewrite (transform_of_fire n cb q' off_screen Hq).
      destruct cb as [m|m|m]; [|done|].
      * case_decide; [subst m; specialize (Hcb eq_refl); lia | done].
      * destruct (parentNode m q'); [case_decide|]; done.
    + destruct (fire_timers_extra cb q') as (extra & -> & Hx').
      apply Forall_app. split; [exact Hrest |].
      eapply Forall_impl; [exact Hx' |]. simpl. intros t -> ?. discriminate.
Qed.

(** A due animate-in timer puts its element on screen, and there it stays
    as long as no dismissal of it is due. *)
Lemma animate_in_fires n due until fuel p :
  (timers_weight (timers p) <= fuel)%nat ->
  (due, AnimateIn n) ∈ timers p -> due <= until ->
  is_Some (transform_of n p) -> not_hidden_until n until p ->
  transform_of n (run_timers fuel until p) = Some on_screen.
Proof.
  intros Hfuel Hin Hdue Hsome Hnh.
  set (I := fun q => (due, AnimateIn n) ∈ timers q
                     /\ is_Some (transform_of n q)
                     /\ not_hidden_until n until q).
  set (J := fun q => transform_of n q = Some on_screen
                     /\ not_hidden_until n until q).
  assert (Hnot : forall q t rest,
             not_hidden_until n until q -> pick (timers q) = Some (t, rest) ->
             fst t <= until -> snd t <> AutoDismiss n).
  { intros q t rest Hq Hpick Ht E.
    destruct (pick_rest_Forall _ _ _ _ Hpick Hq) as [Hcb _].
    specialize (Hcb E). lia. }
  apply (run_timers_progress I J (due, AnimateIn n) until);
    [ | | | | |done|done|repeat split; done].
  - intros q (Hq & _). exact Hq.
  - intros q [d cb] rest (Hq & [x Hx] & Hh) Hpick Hne Ht. simpl in *.
    repeat split.
    + apply timers_fire_incl. simpl. now apply (pick_rest_elem _ _ _ _ Hpick Hq).
    + erewrite transform_of_fire by exact Hx. eauto.
    + now apply (not_hidden_until_fire n until (d, cb) rest q).
  - intros q rest (Hq & [x Hx] & Hh) Hpick. simpl. split.
    + erewrite transform_of_set_transform by exact Hx.
      case_decide; done.
    + now apply (not_hidden_until_fire n until (due, AnimateIn n) rest q).
  - intros q c Hq. exact Hq.
  - intros q [d cb] rest [Hx Hh] Hpick Ht. simpl in *. split.
    + erewrite transform_of_fire by exact Hx.
      pose proof (Hnot q (d, cb) rest Hh Hpick Ht) as Hcb. simpl in Hcb.
      destruct cb as [m|m|m]; [case_decide; done | done |].
      destruct (parentNode m _); [|done].
      case_decide; [subst m; done | done].
    + now apply (not_hidden_until_fire n until (d, cb) rest q).
Qed.

(** The only automatic dismissal of an attached element, once due, leaves
    it off screen for good. *)
Lemma auto_dismiss_hides n due until fuel p :
  (timers_weight (timers p) <= fuel)%nat ->
  (due, AutoDismiss n) ∈ timers p -> due <= until ->
  n ∈ body p -> is_Some (transform_of n p) ->
  Forall (fun t => snd t <> RemoveEl n
                   /\ (snd t = AutoDismiss n -> t = (due, AutoDismiss n))
                   /\ (snd t = AnimateIn n -> fst t < due)) (timers p) ->
  transform_of n (run_timers fuel until p) = Some off_screen.
Proof.
  intros Hfuel Hin Hdue Hb Hsome Ht.
  set (P := fun t : timer =>
              snd t <> RemoveEl n
              /\ (snd t = AutoDismiss n -> t = (due, AutoDismiss n))
              /\ (snd t = AnimateIn n -> fst t < due)).
  set (I := fun q => (due, AutoDismiss n) ∈ timers q /\ n ∈ body q
                     /\ is_Some (transform_of n q) /\ Forall P (timers q)).
  set (J := fun q => transform_of n q = Some off_screen
                     /\ Forall (fun t => snd t <> AnimateIn n) (timers q)).
  apply (run_timers_progress I J (due, AutoDismiss n) until);
    [ | | | | |done|done|repeat split; done].
  - intros q (Hq & _). exact Hq.
  - intros q [d cb] rest (Hq & Hbq & [x Hx] & Hf) Hpick Hne Hd. simpl in *.
    destruct (pick_rest_Forall _ _ _ _ Hpick Hf) as [(Hr & Ha & _) Hrest].
    simpl in *. set (q' := with_clock _ _).
    assert (Hcb : callback_target cb = n -> cb = AnimateIn n).
    { destruct cb as [m|m|m]; simpl; intros ->; [done | done |].
      now specialize (Ha eq_refl). }
    repeat split.
    + apply timers_fire_incl. simpl. now apply (pick_rest_elem _ _ _ _ Hpick Hq).
    + now apply body_fire_other.
    + erewrite transform_of_fire by exact Hx. eauto.
    + destruct cb as [m|m|m]; simpl; [exact Hrest | exact Hrest |].
      unfold auto_dismiss. destruct (parentNode m q'); [|exact Hrest]. simpl.
      apply Forall_app. split; [exact Hrest |].
      constructor; [|constructor]. unfold P. simpl.
      repeat split; try discriminate.
      intros [= ->]. now specialize (Hcb eq_refl).
  - intros q rest (Hq & Hbq & [x Hx] & Hf) Hpick. simpl.
    pose proof (pick_earliest _ _ _ Hpick) as Hmin. simpl in Hmin.
    assert (Hno : Forall (fun t => snd t <> AnimateIn n) (timers q)).
    { rewrite Forall_forall in *. intros t Hin' E.
      destruct (Hf t Hin') as (_ & _ & Hlt). specialize (Hlt E).
      specialize (Hmin t Hin'). lia. }
    destruct (pick_rest_Forall _ _ _ _ Hpick Hno) as [_ Hrest].
    unfold auto_dismiss.
    replace (parentNode n _) with true
      by (symmetry; now apply parentNode_true).
    split.
    + change (transform_of n (set_transform n off_screen q) = Some off_screen).
      erewrite transform_of_set_transform by exact Hx. case_decide; done.
    + simpl. apply Forall_app. split; [exact Hrest |].
      repeat constructor. discriminate.
  - intros q c Hq. exact Hq.
  - intros q [d cb] rest [Hx Hf] Hpick Hd. simpl in *.
    destruct (pick_rest_Forall _ _ _ _ Hpick Hf) as [Hcb Hrest]. simpl in Hcb.
    set (q' := with_clock _ _). split.
    + erewrite transform_of_fire by exact Hx.
      destruct cb as [m|m|m]; [case_decide; [subst m|]; done | done |].
      destruct (parentNode m q'); [case_decide|]; done.
    + destruct (fire_timers_extra cb q') as (extra & -> & Hx').
      apply Forall_app. split; [exact Hrest |].
      eapply Forall_impl; [exact Hx' |]. simpl. intros t ->. discriminate.
Qed.

Lemma pending_run_timers t0 until fuel p :
  t0 ∈ timers p -> until < fst t0 -> t0 ∈ timers (run_timers fuel until p).
Proof.
  intros Hin Hlt. apply (run_timers_invariant (fun q => t0 ∈ timers q) until);
    [| |done].
  - intros q c Hq. exact Hq.
  - intros q t rest Hq Hpick Ht. apply timers_fire_incl. simpl.
    apply (pick_rest_elem _ _ _ _ Hpick Hq). intros ->. lia.
Qed.

Lemma is_Some_transform_run_timers n until fuel p :
  is_Some (transform_of n p) -> is_Some (transform_of n (run_timers fuel until p)).
Proof.
  intros H.
  apply (run_timers_invariant (fun q => is_Some (transform_of n q)) until);
    [| |exact H].
  - intros q c Hq. exact Hq.
  - intros q t rest [x Hx] _ _.
    erewrite transform_of_fire by exact Hx. eauto.
Qed.

End Transform.

Section ShownPage.

(** The page right after [show_notification] on a page with fresh
    identities: the new element and the two timers that refer to it. *)
Lemma shown_page_facts msg type p :
  fresh_ids p ->
  let n := next_id p in
  let p1 := show_notification msg type p in
  n ∈ body p1
  /\ transform_of n p1 = Some off_screen
  /\ clock p1 = clock p
  /\ n ∈ close_listeners p1
  /\ (clock p + 100, AnimateIn n) ∈ timers p1
  /\ (clock p + 5000, AutoDismiss n) ∈ timers p1
  /\ Forall (fun t => callback_target (snd t) = n ->
                      t = (clock p + 100, AnimateIn n)
                      \/ t = (clock p + 5000, AutoDismiss n)) (timers p1).
Proof.
  intros (_ & Ht & _) n p1. subst n p1. rewrite show_notification_eq.
  cbv zeta. unfold transform_of. simpl.
  split; [|split; [|split; [|split; [|split; [|split]]]]].
  - apply elem_of_app. right. now apply list_elem_of_singleton.
  - now rewrite lookup_insert_eq.
  - reflexivity.
  - apply elem_of_union. left. now apply elem_of_singleton.
  - rewrite !elem_of_app, !list_elem_of_singleton. auto.
  - rewrite !elem_of_app, !list_elem_of_singleton. auto.
  - rewrite !Forall_app. split; [split |].
    + eapply Forall_impl; [exact Ht |]. simpl. intros t Hlt E. lia.
    + constructor; [auto | constructor].
    + constructor; [auto | constructor].
Qed.

End ShownPage.

(** X13. A notification that is shown with a message free of markup and
    left alone is attached for 5300ms and detached from then on: the 5000ms
    timeout starts the exit and the removal follows 300ms later. This holds
    whatever older notifications and their timers are around. *)
Theorem notification_lifetime (msg type : string) (p : page) (dt : N) :
  markup_free msg = true ->
  fresh_ids p ->
  parentNode (next_id p) (advance dt (show_notification msg type p))
  = (Z.of_N dt <? 5300).
Proof.
  intros _ Hf.
  destruct (shown_page_facts msg type p Hf)
    as (Hb & _ & Hc & _ & _ & Hauto & Hall).
  unfold advance. rewrite Hc.
  destruct (Z.ltb_spec (Z.of_N dt) 5300) as [Hlt|Hge].
  - apply parentNode_true.
    apply (stays_until_run_timers (next_id p) (clock p + Z.of_N dt)).
    split; [exact Hb |].
    eapply Forall_impl; [exact Hall |]. simpl. intros t Ht. split; intros E.
    + rewrite E in Ht. destruct (Ht eq_refl) as [->| ->]; discriminate.
    + rewrite E in Ht. destruct (Ht eq_refl) as [->| ->]; [discriminate |].
      simpl. lia.
  - apply parentNode_false.
    apply (auto_dismiss_detaches _ (clock p + 5000)); [done | done | lia | lia].
Qed.

Lemma notification_lifetime_witness :
  parentNode 0 (advance 5299 (show_notification "saved" "success" empty_page))
  = true
  /\ parentNode 0 (advance 5300 (show_notification "saved" "success" empty_page))
     = false.
Proof.
  pose proof (proj1 page_ok_empty) as Hf.
  split.
  - exact (notification_lifetime "saved" "success" empty_page 5299 eq_refl Hf).
  - exact (notification_lifetime "saved" "success" empty_page 5300 eq_refl Hf).
Defined.

(** X14. The inline transform of a notification that is shown with a
    message free of markup and left alone: off screen for the first 100ms, on screen from 100ms until the
    5000ms timeout, and off screen again from then on. *)
Theorem notification_transform (msg type : string) (p : page) (dt : N) :
  markup_free msg = true ->
  fresh_ids p ->
  transform_of (next_id p) (advance dt (show_notification msg type p))
  = Some (if (100 <=? Z.of_N dt) && (Z.of_N dt <? 5000)
          then "translateX(0)" else "translateX(100%)").
Proof.
  intros _ Hf.
  destruct (shown_page_facts msg type p Hf)
    as (Hb & Hx & Hc & _ & Hanim & Hauto & Hall).
  unfold advance. rewrite Hc.
  destruct (Z.leb_spec 100 (Z.of_N dt)) as [H100|H100]; simpl.
  - destruct (Z.ltb_spec (Z.of_N dt) 5000) as [H5000|H5000].
    + apply (animate_in_fires _ (clock p + 100)); [done | done | lia | eauto |].
      unfold not_hidden_until.
      eapply Forall_impl; [exact Hall |]. simpl. intros t Ht E.
      rewrite E in Ht. destruct (Ht eq_refl) as [->| ->]; [discriminate |].
      simpl. lia.
    + apply (auto_dismiss_hides _ (clock p + 5000));
        [done | done | lia | done | eauto |].
      eapply Forall_impl; [exact Hall |]. simpl. intros t Ht.
      repeat split.
      * intros E. rewrite E in Ht. destruct (Ht eq_refl) as [->| ->]; discriminate.
      * intros E. rewrite E in Ht. destruct (Ht eq_refl) as [->| ->];
          [discriminate | reflexivity].
      * intros E. rewrite E in Ht. destruct (Ht eq_refl) as [->| ->];
          [simpl; lia | discriminate].
  - apply transform_before_animate_in; [exact Hx |].
    eapply Forall_impl; [exact Hall |]. simpl. intros t Ht E.
    rewrite E in Ht. destruct (Ht eq_refl) as [->| ->]; [simpl; lia | discriminate].
Qed.

Lemma notification_transform_witness :
  let shown := show_notification "saved" "success" empty_page in
  transform_of 0 (advance 99 shown) = Some "translateX(100%)"
  /\ transform_of 0 (advance 100 shown) = Some "translateX(0)"
  /\ transform_of 0 (advance 5000 shown) = Some "translateX(100%)".
Proof.
  intros shown. pose proof (proj1 page_ok_empty) as Hf.
  split; [|split].
  - exact (notification_transform "saved" "success" empty_page 99 eq_refl Hf).
  - exact (notification_transform "saved" "success" empty_page 100 eq_refl Hf).
  - exact (notification_transform "saved" "success" empty_page 5000 eq_refl Hf).
Defined.

Section ManualDismiss.

(** The page after waiting [dt1] < 5000 milliseconds on a notification
    that was just shown: it is still alone, and its close button still has
    its listener. *)
Lemma waited_page_facts msg type p (dt1 : N) :
  fresh_ids p -> Z.of_N dt1 < 5000 ->
  let n := next_id p in
  let p2 := advance dt1 (show_notification msg type p) in
  alone n (clock p + 5000) p2
  /\ clock p2 = clock p + Z.of_N dt1
  /\ n ∈ close_listeners p2
  /\ is_Some (transform_of n p2).
Proof.
  intros Hf Hdt n p2.
  destruct (shown_page_facts msg type p Hf)
    as (_ & Hx & Hc & Hl & _ & _ & _).
  subst n p2. unfold advance. rewrite Hc. split; [|split; [|split]].
  - apply alone_run_timers; [lia |]. now apply alone_show_notification.
  - apply clock_run_timers.
  - destruct (kept_run_timers
                (timers_weight (timers (show_notification msg type p)))
                (clock p + Z.of_N dt1) (show_notification msg type p))
      as (_ & -> & _). exact Hl.
  - apply is_Some_transform_run_timers. eauto.
Qed.

(** After the close button of a notification that was alone is activated,
    the notification stays attached until 300ms have passed. *)
Lemma close_click_stays n deadline until q :
  alone n deadline q -> until < clock q + 300 -> until < deadline + 300 ->
  stays_until n until (close_click n q).
Proof.
  intros (Hb & _ & Ht) Hc Hd. split; [exact Hb |]. simpl.
  apply Forall_app. split.
  - eapply Forall_impl; [exact Ht |]. simpl. intros t [Hr Ha].
    split; [done |]. intros E. specialize (Ha E). lia.
  - constructor; [|constructor]. simpl. split; [lia | discriminate].
Qed.

End ManualDismiss.

(** X15. The exit animation gets its 300ms: when the close button of a
    notification shown with a message free of markup is activated at any time before its 5000ms timeout, the
    notification is still attached during the next 300ms and detached from
    300ms on. *)
Theorem exit_animation_window (msg type : string) (p : page) (dt1 dt : N) :
  markup_free msg = true ->
  fresh_ids p -> Z.of_N dt1 < 5000 ->
  let n := next_id p in
  let waited := advance dt1 (show_notification msg type p) in
  parentNode n waited = true
  /\ parentNode n (advance dt (click_close_button n waited))
     = (Z.of_N dt <? 300).
Proof.
  intros _ Hf Hdt n waited.
  destruct (waited_page_facts msg type p dt1 Hf Hdt)
    as (Halone & Hc & Hl & _).
  fold n waited in Halone, Hc, Hl.
  split; [apply parentNode_true, Halone |].
  unfold click_close_button. rewrite bool_decide_eq_true_2 by done.
  unfold advance.
  change (clock (close_click n waited)) with (clock waited).
  destruct (Z.ltb_spec (Z.of_N dt) 300) as [Hlt|Hge].
  - apply parentNode_true. apply stays_until_run_timers.
    apply (close_click_stays n (clock p + 5000)); [done | lia | lia].
  - apply parentNode_false.
    apply (run_timers_removes n _ _ _ (clock waited + 300)); [done | | lia].
    simpl. apply elem_of_app. right. now apply list_elem_of_singleton.
Qed.

Lemma exit_animation_window_witness :
  let waited := advance 2000 (show_notification "saved" "success" empty_page) in
  parentNode 0 (advance 299 (click_close_button 0 waited)) = true
  /\ parentNode 0 (advance 300 (click_close_button 0 waited)) = false.
Proof.
  intros waited. pose proof (proj1 page_ok_empty) as Hf.
  assert (Hdt : Z.of_N 2000 < 5000) by lia.
  split.
  - exact (proj2 (exit_animation_window "saved" "success" empty_page 2000 299
                    eq_refl Hf Hdt)).
  - exact (proj2 (exit_animation_window "saved" "success" empty_page 2000 300
                    eq_refl Hf Hdt)).
Defined.

(** X16. Closing a notification during its first 100ms does not cancel
    its animate-in timer: the click sends it off screen, but at 100ms after
    the call the timer puts it on screen, and there it is, attached, until
    the removal 300ms after the click takes it away without an exit. *)
Theorem early_close_slides_in (msg type : string) (p : page) (dt1 dt : N) :
  fresh_ids p ->
  Z.of_N dt1 < 100 -> 100 <= Z.of_N dt1 + Z.of_N dt -> Z.of_N dt < 300 ->
  let n := next_id p in
  let closed :=
    click_close_button n (advance dt1 (show_notification msg type p)) in
  transform_of n closed = Some "translateX(100%)"
  /\ transform_of n (advance dt closed) = Some "translateX(0)"
  /\ parentNode n (advance dt closed) = true.
Proof.
  intros Hf Hdt1 Hsum Hdt n closed.
  assert (Hdt1' : Z.of_N dt1 < 5000) by lia.
  destruct (waited_page_facts msg type p dt1 Hf Hdt1')
    as (Halone & Hc & Hl & [x Hx]).
  destruct (shown_page_facts msg type p Hf)
    as (_ & _ & Hc1 & _ & Hanim & _ & _).
  set (waited := advance dt1 (show_notification msg type p)) in *.
  fold n in Halone, Hl, Hx, Hanim.
  assert (Hpending : (clock p + 100, AnimateIn n) ∈ timers waited).
  { subst waited. unfold advance. apply pending_run_timers; [done |].
    rewrite Hc1. simpl. lia. }
  assert (Eclosed : closed = close_click n waited).
  { subst closed. unfold click_close_button.
    now rewrite bool_decide_eq_true_2. }
  rewrite Eclosed.
  assert (Hoff : transform_of n (close_click n waited) = Some off_screen).
  { change (transform_of n (set_transform n off_screen waited) = Some off_screen).
    erewrite transform_of_set_transform by exact Hx. case_decide; done. }
  split; [exact Hoff |]. unfold advance.
  change (clock (close_click n waited)) with (clock waited). split.
  - apply (animate_in_fires n (clock p + 100)); [done | | lia | eauto |].
    + simpl. apply elem_of_app. now left.
    + unfold not_hidden_until. simpl. apply Forall_app. split.
      * destruct Halone as (_ & _ & Ht).
        eapply Forall_impl; [exact Ht |]. simpl. intros t [_ Ha] E.
        specialize (Ha E). lia.
      * constructor; [|constructor]. simpl. discriminate.
  - apply parentNode_true. apply stays_until_run_timers.
    apply (close_click_stays n (clock p + 5000)); [done | lia | lia].
Qed.

Lemma early_close_slides_in_witness :
  let closed :=
    click_close_button 0
      (advance 40 (show_notification "saved" "success" empty_page)) in
  transform_of 0 (advance 60 closed) = Some "translateX(0)"
  /\ parentNode 0 (advance 299 closed) = true
  /\ parentNode 0 (advance 300 closed) = false.
Proof.
  intros closed. pose proof (proj1 page_ok_empty) as Hf.
  assert (H1 : Z.of_N 40 < 100) by lia.
  assert (H2 : 100 <= Z.of_N 40 + Z.of_N 60) by lia.
  assert (H3 : Z.of_N 60 < 300) by lia.
  assert (H4 : 100 <= Z.of_N 40 + Z.of_N 299) by lia.
  assert (H5 : Z.of_N 299 < 300) by lia.
  split; [|split].
  - exact (proj1 (proj2 (early_close_slides_in "saved" "success" empty_page
                           40 60 Hf H1 H2 H3))).
  - exact (proj2 (proj2 (early_close_slides_in "saved" "success" empty_page
                           40 299 Hf H1 H4 H5))).
  - vm_compute. reflexivity.
Defined.

(** ** NotificationCenter: the page comes to rest *)

Section Settles.

Lemma has_dismissal_fire q t rest :
  pick (timers q) = Some (t, rest) ->
  Forall (has_dismissal q) (body q) ->
  let q' := fire (snd t)
              (with_clock (Z.max (clock q) (fst t)) (with_timers rest q)) in
  Forall (has_dismissal q') (body q').
Proof.
  intros Hpick Hq q'. rewrite Forall_forall in *. intros n Hn.
  assert (Hk : kept q q').
  { subst q'. eapply kept_trans; [apply (kept_with_timers q rest) |].
    eapply kept_trans; [apply kept_with_clock | apply kept_fire]. }
  assert (Hnq : n ∈ body q).
  { destruct (decide (n ∈ body q)) as [H|H]; [exact H |].
    now apply (kept_detached q q' n Hk) in H. }
  assert (Hkeep : forall x, x ∈ timers q -> x <> t -> x ∈ timers q').
  { intros x Hx Hne. subst q'. apply timers_fire_incl. simpl.
    now apply (pick_rest_elem _ _ _ _ Hpick Hx). }
  destruct t as [dt cb]. simpl in *.
  assert (Hfired : forall d, (d, AutoDismiss n) = (dt, cb) ->
                             (Z.max (clock q) dt + 300, RemoveEl n) ∈ timers q').
  { intros d [= -> <-]. subst q'. simpl. unfold auto_dismiss.
    replace (parentNode n _) with true
      by (symmetry; now apply parentNode_true).
    simpl. apply elem_of_app. right. now apply list_elem_of_singleton. }
  destruct (Hq n Hnq) as [d [Hd|Hd]].
  - destruct (decide ((d, AutoDismiss n) = (dt, cb))) as [E|Hne].
    + eexists. right. exact (Hfired d E).
    + exists d. left. now apply Hkeep.
  - destruct (decide ((d, RemoveEl n) = (dt, cb))) as [E|Hne].
    + injection E as -> <-. subst q'. simpl in Hn.
      now apply filter_not_elem in Hn.
    + exists d. right. now apply Hkeep.
Qed.

Lemma has_dismissal_incl p p' n :
  (forall t, t ∈ timers p -> t ∈ timers p') ->
  has_dismissal p n -> has_dismissal p' n.
Proof. intros H [d [Hd|Hd]]; exists d; [left | right]; now apply H. Qed.

Lemma settles_empty_page : settles empty_page.
Proof. split; constructor. Qed.

Lemma settles_show_notification msg type p :
  settles p -> settles (show_notification msg type p).
Proof.
  intros [Hb Ht]. rewrite show_notification_eq. cbv zeta.
  set (p' := Page _ _ _ _ _ _).
  assert (Hincl : forall t, t ∈ timers p -> t ∈ timers p').
  { intros t H. subst p'. simpl. rewrite !elem_of_app. auto. }
  split.
  - subst p'. simpl. apply Forall_app. split.
    + assert (Hs : sublist
                (body match query_notification p with
                      | Some o => element_remove o p | None => p end) (body p)).
      { destruct (query_notification p); [apply filter_sublist | done]. }
      apply (sublist_Forall _ _ _ Hs).
      eapply Forall_impl; [exact Hb |]. intros n.
      now apply has_dismissal_incl.
    + constructor; [|constructor]. exists (clock p + 5000). left. simpl.
      rewrite !elem_of_app, !list_elem_of_singleton. auto.
  - subst p'. simpl. rewrite !Forall_app. split; [split |].
    + exact Ht.
    + constructor; [simpl; lia | constructor].
    + constructor; [simpl; lia | constructor].
Qed.

Lemma settles_click_close_button n p :
  settles p -> settles (click_close_button n p).
Proof.
  intros [Hb Ht]. unfold click_close_button. case_bool_decide; [|done].
  split; simpl.
  - eapply Forall_impl; [exact Hb |]. intros m.
    apply has_dismissal_incl. intros t Hin. simpl. apply elem_of_app. now left.
  - apply Forall_app. split; [exact Ht |].
    constructor; [simpl; lia | constructor].
Qed.

(** Where the event loop stops: at a page that keeps what every fired
    timer keeps, with nothing left that is due, and the clock at [until]. *)
Lemma run_timers_final (I : page -> Prop) until :
  (forall q t rest,
      I q -> pick (timers q) = Some (t, rest) -> fst t <= until ->
      I (fire (snd t)
           (with_clock (Z.max (clock q) (fst t)) (with_timers rest q)))) ->
  forall fuel p,
    (timers_weight (timers p) <= fuel)%nat -> I p ->
    exists q, run_timers fuel until p = with_clock until q
              /\ I q /\ Forall (fun t => until < fst t) (timers q).
Proof.
  intros Hfire. induction fuel as [|fuel IH]; intros p Hfuel Hp.
  - assert (timers p = []) as E by (apply timers_weight_0; lia).
    exists p. simpl. rewrite E. repeat split; [done | constructor].
  - simpl. destruct (pick (timers p)) as [[[d cb] rest]|] eqn:Hpick.
    2:{ apply pick_None in Hpick. exists p. rewrite Hpick.
        repeat split; [done | constructor]. }
    pose proof (pick_earliest _ _ _ Hpick) as Hmin. simpl in Hmin.
    pose proof (timers_weight_pick _ _ _ Hpick) as Hw. simpl in Hw.
    destruct (d <=? until) eqn:Ed.
    + apply Z.leb_le in Ed. apply IH.
      * set (q := with_clock (Z.max (clock p) d) (with_timers rest p)).
        destruct (fire_timers cb q) as (extra & Et & Hx & _).
        rewrite Et, timers_weight_app. simpl. lia.
      * exact (Hfire p (d, cb) rest Hp Hpick Ed).
    + apply Z.leb_gt in Ed. exists p. repeat split; [done |].
      eapply Forall_impl; [exact Hmin |]. simpl. intros; lia.
Qed.

(** While the event loop runs towards [until], every attached element
    keeps a dismissal pending, the clock stays at or before [until], and
    nothing is scheduled later than [bound]. *)
Lemma settles_run_timers until bound fuel p :
  (timers_weight (timers p) <= fuel)%nat ->
  clock p <= until -> until + 300 <= bound ->
  Forall (has_dismissal p) (body p) ->
  Forall (fun t => fst t <= bound) (timers p) ->
  let q := run_timers fuel until p in
  Forall (has_dismissal q) (body q)
  /\ Forall (fun t => fst t <= bound) (timers q).
Proof.
  intros Hfuel Hc Hbound Hb Ht q.
  destruct (run_timers_final
              (fun q => clock q <= until
                        /\ Forall (has_dismissal q) (body q)
                        /\ Forall (fun t => fst t <= bound) (timers q))
              until) with (fuel := fuel) (p := p)
    as (r & Er & (_ & Hrb & Hrt) & _); [|done|repeat split; done|].
  - intros r [d cb] rest (Hrc & Hrb & Hrt) Hpick Hd. simpl in *.
    set (r' := with_clock _ _).
    split; [rewrite clock_fire; subst r'; simpl; lia |].
    split; [exact (has_dismissal_fire r (d, cb) rest Hpick Hrb) |].
    destruct (pick_rest_Forall _ _ _ _ Hpick Hrt) as [_ Hrest].
    destruct cb as [m|m|m]; simpl; [exact Hrest | exact Hrest |].
    unfold auto_dismiss. destruct (parentNode m r'); [|exact Hrest].
    simpl. apply Forall_app. split; [exact Hrest |].
    constructor; [simpl; lia | constructor].
  - subst q. rewrite Er. simpl. split; [exact Hrb | exact Hrt].
Qed.

Lemma settles_advance dt p : settles p -> settles (advance dt p).
Proof.
  intros [Hb Ht]. unfold advance, settles.
  rewrite clock_run_timers.
  apply settles_run_timers; [done | lia | lia | exact Hb |].
  eapply Forall_impl; [exact Ht |]. simpl. intros; lia.
Qed.

Lemma settles_run_events es : forall p, settles p -> settles (run_events p es).
Proof.
  induction es as [|e es IH]; intros p Hp; simpl; [done |].
  apply IH. destruct e as [msg type|n|dt]; simpl.
  - now apply settles_show_notification.
  - now apply settles_click_close_button.
  - now apply settles_advance.
Qed.

(** After 5300ms every timer of a settling page has fired and nothing is
    attached. *)
Lemma settles_drains dt p :
  settles p -> 5300 <= Z.of_N dt ->
  timers (advance dt p) = [] /\ body (advance dt p) = [].
Proof.
  intros [Hb Ht] Hdt.
  set (until := clock p + Z.of_N dt).
  set (P := fun (c : Z) (t : timer) =>
              fst t <= until
              /\ (forall n, snd t = AutoDismiss n ->
                            fst t + 300 <= until
                            /\ c <= Z.max (clock p) (fst t))).
  set (I := fun q => Forall (has_dismissal q) (body q)
                     /\ Forall (P (clock q)) (timers q)).
  destruct (run_timers_final I until) with (fuel := timers_weight (timers p))
    (p := p) as (q & Eq & [Hqb Hqt] & Hlate).
  - intros r [d cb] rest [Hrb Hrt] Hpick Hd. simpl in *.
    set (r' := with_clock _ _).
    split; [exact (has_dismissal_fire r (d, cb) rest Hpick Hrb) |].
    rewrite clock_fire. subst r'. simpl.
    pose proof (pick_earliest _ _ _ Hpick) as Hmin. simpl in Hmin.
    assert (Hboth : Forall (fun t => P (clock r) t /\ d <= fst t) (timers r)).
    { rewrite Forall_forall in *. intros t Hin. split; auto. }
    destruct (pick_rest_Forall _ _ _ _ Hpick Hboth) as [[[_ Hcb] _] Hrest].
    simpl in Hcb.
    assert (Hrest' : Forall (P (Z.max (clock r) d)) rest).
    { eapply Forall_impl; [exact Hrest |]. simpl.
      intros t [[Hle Ha] Hdt']. split; [exact Hle |].
      intros n E. destruct (Ha n E). lia. }
    destruct cb as [m|m|m]; simpl; [exact Hrest' | exact Hrest' |].
    unfold auto_dismiss. destruct (parentNode m _); [|exact Hrest']. simpl.
    apply Forall_app. split; [exact Hrest' |].
    constructor; [|constructor]. split; simpl; [|discriminate].
    destruct (Hcb m eq_refl). lia.
  - done.
  - split; [exact Hb |].
    eapply Forall_impl; [exact Ht |]. simpl. intros t Hle.
    split; [subst until; lia |]. intros n _. subst until. lia.
  - unfold advance. fold until. rewrite Eq. simpl.
    assert (Et : timers q = []).
    { destruct (timers q) as [|t ts]; [done |].
      apply Forall_cons in Hqt as [[Hle _] _].
      apply Forall_cons in Hlate as [Hlt _]. lia. }
    split; [exact Et |].
    destruct (body q) as [|n b]; [done |].
    apply Forall_cons in Hqb as [[d [Hd|Hd]] _]; rewrite Et in Hd; inversion Hd.
Qed.

End Settles.

(** X17. The page comes to rest: whatever notifications were shown with
    messages free of markup, closed and replaced before, once 5300ms pass
    without a new [show_notification] no notification is attached and no
    timer of the script is pending. No timer is ever cancelled; each one
    runs out. *)
Theorem page_comes_to_rest (es : list event) (dt : N) :
  markup_free_events es ->
  5300 <= Z.of_N dt ->
  let rest := advance dt (run_events empty_page es) in
  timers rest = [] /\ body rest = [] /\ notifications rest = [].
Proof.
  intros _ Hdt rest.
  destruct (settles_drains dt (run_events empty_page es)) as [Et Eb];
    [apply settles_run_events, settles_empty_page | exact Hdt |].
  fold rest in Et, Eb. repeat split; [exact Et | exact Eb |].
  unfold notifications. now rewrite Eb.
Qed.

Lemma page_comes_to_rest_witness :
  let es := [ShowCall "one" "success"; Advance 4000; ShowCall "two" "error";
             CloseClick 1; Advance 100; ShowCall "three" "info"] in
  timers (advance 5300 (run_events empty_page es)) = []
  /\ (length (timers (advance 5299 (run_events empty_page es))) = 1)%nat.
Proof.
  intros es. assert (Hdt : 5300 <= Z.of_N 5300) by lia.
  assert (Hes : markup_free_events es) by (repeat constructor).
  split.
  - exact (proj1 (page_comes_to_rest es 5300 Hes Hdt)).
  - vm_compute. reflexivity.
Defined.

(** ** NotificationCenter: the newest instance, from the call to its end *)

Section NewestInstance.

Lemma no_show_cons e es :
  no_show (e :: es) = true -> is_show e = false /\ no_show es = true.
Proof.
  unfold no_show. simpl. rewrite andb_true_iff, negb_true_iff. done.
Qed.

Lemma kept_step_no_show q e : is_show e = false -> kept q (step q e).
Proof.
  destruct e as [msg type|m|dt]; simpl; [discriminate | |]; intros _.
  - apply kept_click_close_button.
  - apply kept_advance.
Qed.

Lemma kept_run_events_no_show es : forall q,
  no_show es = true -> kept q (run_events q es).
Proof.
  induction es as [|e es IH]; intros q Hes; simpl; [apply kept_refl |].
  apply no_show_cons in Hes as [He Hes].
  eapply kept_trans; [apply (kept_step_no_show q e He) | now apply IH].
Qed.

Lemma clock_advance dt q : clock (advance dt q) = clock q + Z.of_N dt.
Proof. apply clock_run_timers. Qed.

Lemma clock_run_events es : forall q,
  no_show es = true -> clock (run_events q es) = clock q + elapsed es.
Proof.
  induction es as [|e es IH]; intros q Hes; simpl; [lia |].
  apply no_show_cons in Hes as [He Hes]. rewrite IH by done.
  destruct e as [msg type|m|dt]; simpl; [discriminate | |].
  - now rewrite clock_click_close_button.
  - rewrite clock_advance. lia.
Qed.

Lemma none_overdue_advance dt q : none_overdue (advance dt q).
Proof.
  unfold none_overdue. rewrite clock_advance. apply advance_complete.
Qed.

Lemma none_overdue_click_close_button m q :
  none_overdue q -> none_overdue (click_close_button m q).
Proof.
  unfold none_overdue, click_close_button. intros H.
  case_bool_decide; [|done]. simpl. apply Forall_app. split; [done |].
  constructor; [simpl; lia | constructor].
Qed.

Lemma none_overdue_run_events es : forall q,
  no_show es = true -> none_overdue q \/ 0 < elapsed es ->
  none_overdue (run_events q es).
Proof.
  induction es as [|e es IH]; intros q Hes H; simpl.
  - destruct H as [H|H]; [done | simpl in H; lia].
  - apply no_show_cons in Hes as [He Hes].
    destruct e as [msg type|m|dt]; simpl in *; [discriminate | |].
    + apply IH; [done |]. destruct H as [H|H]; [left | now right].
      now apply none_overdue_click_close_button.
    + apply IH; [done |]. left. apply none_overdue_advance.
Qed.

(** *** Still attached *)

Lemma stays_until_run_timers_le n until until' fuel q :
  until' <= until -> stays_until n until q ->
  stays_until n until (run_timers fuel until' q).
Proof.
  intros Hle.
  apply (run_timers_invariant (stays_until n until) until').
  - intros r c Hr. exact Hr.
  - intros r t rest Hr Hpick Ht. apply stays_until_fire; [done | done | lia].
Qed.

Lemma stays_until_click_close_button n until m q :
  m <> n -> stays_until n until q ->
  stays_until n until (click_close_button m q).
Proof.
  intros Hne [Hb Ht]. unfold click_close_button. case_bool_decide; [|done].
  split; [exact Hb |]. simpl. apply Forall_app. split; [exact Ht |].
  constructor; [|constructor]. simpl. split; [congruence | discriminate].
Qed.

Lemma stays_until_run_events n deadline es : forall budget q,
  undisturbed n budget es -> clock q + budget <= deadline ->
  stays_until n (deadline - 1) q ->
  stays_until n (deadline - 1) (run_events q es).
Proof.
  induction es as [|e es IH]; intros budget q Hes Hclock Hq; simpl; [done |].
  destruct e as [msg type|m|dt]; simpl in Hes; [done | |].
  - destruct Hes as [Hne Hes].
    apply (IH budget); [done | | now apply stays_until_click_close_button].
    simpl. now rewrite clock_click_close_button.
  - destruct Hes as [Hdt Hes].
    apply (IH (budget - Z.of_N dt)); [done | |].
    + simpl. rewrite clock_advance. lia.
    + simpl. apply stays_until_run_timers_le; [lia | done].
Qed.

Lemma undisturbed_no_show n es : forall budget,
  undisturbed n budget es -> no_show es = true.
Proof.
  induction es as [|e es IH]; intros budget H; [done |].
  destruct e as [msg type|m|dt]; simpl in H; [done | |];
    destruct H as [_ H]; unfold no_show; simpl; now apply (IH _ H).
Qed.

Lemma attached_only n q :
  page_ok q -> n ∈ body q -> is_notification q n = true ->
  notifications q = [n].
Proof.
  intros (_ & Hlen) Hb Hi.
  assert (Hin : n ∈ notifications q).
  { unfold notifications. rewrite list_elem_of_In, filter_In.
    now rewrite <- list_elem_of_In. }
  destruct (notifications q) as [|a [|b l]]; simpl in Hlen.
  - inversion Hin.
  - apply list_elem_of_singleton in Hin. now subst.
  - lia.
Qed.

(** *** On its way out *)

Lemma leaving_fire n deadline t rest q :
  leaving n deadline q -> pick (timers q) = Some (t, rest) ->
  leaving n deadline
    (fire (snd t) (with_clock (Z.max (clock q) (fst t)) (with_timers rest q))).
Proof.
  intros Hq Hpick. set (q' := with_clock _ _).
  assert (Hkeep : forall x, x ∈ timers q -> x <> t ->
                            x ∈ timers (fire (snd t) q')).
  { intros x Hx Hne. apply timers_fire_incl. subst q'. simpl.
    now apply (pick_rest_elem _ _ _ _ Hpick Hx). }
  pose proof (pick_earliest _ _ _ Hpick) as Hmin.
  rewrite Forall_forall in Hmin.
  destruct Hq as [Hq|[(d & Hd & Hq)|(d & Hd & Hc & Hq)]].
  - left. apply (kept_detached q); [|done].
    eapply kept_trans; [apply (kept_with_timers q rest) |].
    eapply kept_trans; [apply kept_with_clock | apply kept_fire].
  - destruct (decide ((d, RemoveEl n) = t)) as [<-|Hne].
    + left. simpl. apply filter_not_elem.
    + right. left. exists d. split; [done |]. now apply Hkeep.
  - destruct (decide ((d, AutoDismiss n) = t)) as [<-|Hne].
    + simpl. unfold auto_dismiss. destruct (parentNode n q') eqn:Ep.
      * right. left. exists (d + 300). split; [done |]. simpl.
        apply elem_of_app. right. apply list_elem_of_singleton.
        f_equal. lia.
      * left. now apply parentNode_false in Ep.
    + right. right. exists d. split; [done |].
      split; [|now apply Hkeep].
      rewrite clock_fire. subst q'. simpl.
      specialize (Hmin _ Hq). simpl in Hmin. lia.
Qed.

Lemma leaving_advance n deadline dt q :
  leaving n deadline q -> leaving n deadline (advance dt q).
Proof.
  intros Hq. unfold advance.
  destruct (run_timers_final (leaving n deadline) (clock q + Z.of_N dt))
    with (fuel := timers_weight (timers q)) (p := q)
    as (r & -> & Hr & Hlate); [|done|done|].
  - intros r t rest Hr Hpick _. now apply leaving_fire.
  - destruct Hr as [Hr|[Hr|(d & Hd & Hc & Hr)]];
      [now left | right; now left |].
    right. right. exists d. split; [done |]. split; [|done]. simpl.
    rewrite Forall_forall in Hlate. specialize (Hlate _ Hr). simpl in Hlate.
    lia.
Qed.

Lemma leaving_click_close_button n deadline m q :
  leaving n deadline q -> leaving n deadline (click_close_button m q).
Proof.
  intros Hq. unfold click_close_button. case_bool_decide; [|done].
  destruct Hq as [Hq|[(d & Hd & Hq)|(d & Hd & Hc & Hq)]].
  - now left.
  - right. left. exists d. split; [done |]. simpl. apply elem_of_app. now left.
  - right. right. exists d. repeat split; [done | done |].
    simpl. apply elem_of_app. now left.
Qed.

Lemma leaving_run_events n deadline es : forall q,
  no_show es = true -> leaving n deadline q ->
  leaving n deadline (run_events q es).
Proof.
  induction es as [|e es IH]; intros q Hes Hq; simpl; [done |].
  apply no_show_cons in Hes as [He Hes]. apply IH; [done |].
  destruct e as [msg type|m|dt]; simpl; [discriminate | |].
  - now apply leaving_click_close_button.
  - now apply leaving_advance.
Qed.

(** Past the deadline, with nothing overdue, the element is detached. *)
Lemma leaving_left n deadline q :
  leaving n deadline q -> none_overdue q -> deadline <= clock q ->
  ~ (n ∈ body q).
Proof.
  unfold none_overdue. rewrite Forall_forall.
  intros [Hq|[(d & Hd & Hq)|(d & Hd & Hc & Hq)]] Ho Hdl; [done | |];
    specialize (Ho _ Hq); simpl in Ho; lia.
Qed.

(** When the one notification of a page is detached, none is attached. *)
Lemma notifications_left n q q' :
  notifications q = [n] -> kept q q' -> ~ (n ∈ body q') ->
  notifications q' = [].
Proof.
  intros Hq Hk Hn. apply kept_notifications in Hk. rewrite Hq in Hk.
  destruct (notifications q') as [|a l] eqn:E; [done |].
  assert (Ha : a ∈ notifications q') by (rewrite E; apply elem_of_cons; now left).
  assert (a = n) as ->.
  { apply sublist_submseteq, submseteq_Permutation in Hk as [k Hk].
    assert (Hin : a ∈ [n]) by (rewrite Hk; apply elem_of_app; left;
                                apply elem_of_cons; now left).
    now apply list_elem_of_singleton in Hin. }
  unfold notifications in Ha. rewrite list_elem_of_In, filter_In in Ha.
  destruct Ha as [Ha _]. now apply list_elem_of_In in Ha.
Qed.

End NewestInstance.

(** C1, as the code has it. From a page with at most one notification:
    at most one notification is attached at every later point, whatever is
    shown, clicked or timed out; a call of [show_notification] leaves exactly
    the new instance attached, the instance it found is detached at once and
    its style is not touched (no exit animation), also when that instance was
    in the middle of its own dismissal; the new instance stays the only one
    as long as its close button is not activated, nothing else is shown and
    less than 5300ms pass; and when nothing else is shown, no instance is
    attached once 5300ms have passed since the call, or once 300ms have
    passed since the close button of the new instance was activated (for a
    message free of markup, whose close button is the one of the
    template). *)
Theorem notification_slot_at_most_one (p : page) :
  page_ok p ->
  (forall es, (length (notifications (run_events p es)) <= 1)%nat)
  /\ (forall msg type,
        notifications (show_notification msg type p) = [next_id p]
        /\ forall old, query_notification p = Some old ->
             parentNode old (show_notification msg type p) = false
             /\ heap (show_notification msg type p) !! old = heap p !! old)
  /\ (forall msg type es,
        undisturbed (next_id p) 5300 es ->
        notifications (run_events (show_notification msg type p) es)
        = [next_id p])
  /\ (forall msg type es,
        markup_free msg = true ->
        no_show es = true -> 5300 <= elapsed es ->
        notifications (run_events (show_notification msg type p) es) = [])
  /\ (forall msg type es1 es2,
        markup_free msg = true ->
        no_show es1 = true -> no_show es2 = true -> 300 <= elapsed es2 ->
        notifications
          (run_events (show_notification msg type p)
                      (es1 ++ CloseClick (next_id p) :: es2)) = []).
Proof.
  intros Hok.
  assert (Hshown : forall msg type,
             notifications (show_notification msg type p) = [next_id p]).
  { intros msg type. destruct Hok as [Hf Hlen].
    now apply show_notification_slot. }
  split; [|split; [|split; [|split]]].
  - intros es. apply (page_ok_run_events es p Hok).
  - intros msg type. split; [apply Hshown |].
    destruct Hok as [Hf Hlen]. intros old Hold.
    assert (Hlt : (old < next_id p)%nat).
    { destruct Hf as (Hb & _). rewrite Forall_forall in Hb.
      apply Hb. now apply query_notification_attached. }
    rewrite show_notification_eq. cbv zeta. rewrite Hold. simpl. split.
    + apply parentNode_false. simpl.
      rewrite not_elem_of_app, list_elem_of_singleton.
      split; [apply filter_not_elem | lia].
    + apply lookup_insert_ne. lia.
  - intros msg type es Hes.
    pose proof (page_ok_step p (ShowCall msg type) Hok) as Hok'. simpl in Hok'.
    destruct (shown_page_facts msg type p (proj1 Hok))
      as (Hb & _ & Hc & _ & _ & _ & Hall).
    destruct (alone_show_notification msg type p (proj1 Hok)) as (_ & Hi & _).
    set (p1 := show_notification msg type p) in *.
    assert (Hstay : stays_until (next_id p) (clock p + 5300 - 1)
                      (run_events p1 es)).
    { apply (stays_until_run_events _ _ es 5300); [done | lia |].
      split; [exact Hb |].
      eapply Forall_impl; [exact Hall |]. simpl. intros t Ht. split; intros E.
      - rewrite E in Ht. destruct (Ht eq_refl) as [->| ->]; discriminate.
      - rewrite E in Ht. destruct (Ht eq_refl) as [->| ->]; [discriminate |].
        simpl. lia. }
    apply attached_only.
    + now apply page_ok_run_events.
    + apply Hstay.
    + destruct (kept_run_events_no_show es p1 (undisturbed_no_show _ _ _ Hes))
        as (_ & _ & -> & _). exact Hi.
  - intros msg type es _ Hes Hel.
    destruct (shown_page_facts msg type p (proj1 Hok))
      as (_ & _ & Hc & _ & _ & Hauto & _).
    set (p1 := show_notification msg type p) in *.
    apply (notifications_left (next_id p) p1);
      [apply Hshown | now apply kept_run_events_no_show |].
    apply (leaving_left _ (clock p + 5300)).
    + apply leaving_run_events; [done |].
      right. right. exists (clock p + 5000). repeat split; [lia | lia | done].
    + apply none_overdue_run_events; [done |]. right. lia.
    + rewrite clock_run_events by done. lia.
  - intros msg type es1 es2 _ Hes1 Hes2 Hel.
    destruct (shown_page_facts msg type p (proj1 Hok))
      as (_ & _ & _ & Hl & _ & _ & _).
    set (p1 := show_notification msg type p) in *.
    set (n := next_id p) in *.
    unfold run_events. rewrite fold_left_app. simpl.
    fold (run_events p1 es1).
    set (q1 := run_events p1 es1).
    fold (run_events (click_close_button n q1) es2).
    assert (Hk1 : kept p1 q1) by now apply kept_run_events_no_show.
    assert (Hl1 : n ∈ close_listeners q1).
    { destruct Hk1 as (_ & -> & _). exact Hl. }
    apply (notifications_left n p1); [apply Hshown | |].
    + eapply kept_trans; [exact Hk1 |].
      eapply kept_trans; [apply kept_click_close_button |].
      now apply kept_run_events_no_show.
    + apply (leaving_left _ (clock q1 + 300)).
      * apply leaving_run_events; [done |].
        right. left. exists (clock q1 + 300). split; [lia |].
        unfold click_close_button. rewrite bool_decide_eq_true_2 by done.
        simpl. apply elem_of_app. right. now apply list_elem_of_singleton.
      * apply none_overdue_run_events; [done |]. right. lia.
      * rewrite clock_run_events, clock_click_close_button by done. lia.
Qed.

Lemma notification_slot_witness :
  let p := show_notification "first" "success" empty_page in
  page_ok p
  /\ notifications (show_notification "second" "error" p) = [1%nat]
  /\ parentNode 0 (show_notification "second" "error" p) = false
  /\ notifications
       (run_events (show_notification "second" "error" p)
          [Advance 100; CloseClick 0; Advance 5199]) = [1%nat]
  /\ notifications
       (run_events (show_notification "second" "error" p)
          [Advance 100; CloseClick 0; Advance 5200]) = []
  /\ notifications
       (run_events (show_notification "second" "error" p)
          ([Advance 100] ++ CloseClick 1 :: [Advance 300])) = [].
Proof.
  intros p.
  assert (Hok : page_ok p).
  { repeat split; simpl.
    - repeat constructor.
    - repeat constructor.
    - intros n Hn. set_unfold. lia.
    - vm_compute. lia. }
  split; [exact Hok |].
  destruct (notification_slot_at_most_one p Hok)
    as (_ & Hshow & Hstay & Hauto & Hmanual).
  destruct (Hshow "second" "error") as [Hone Hold]. split; [exact Hone |].
  split; [apply (Hold 0%nat); reflexivity |].
  split; [|split].
  - apply (Hstay "second" "error"). simpl. repeat split; (lia || discriminate).
  - apply (Hauto "second" "error"); [reflexivity | reflexivity |].
    vm_compute. discriminate.
  - apply (Hmanual "second" "error" [Advance 100] [Advance 300]);
      [reflexivity | reflexivity | reflexivity |].
    vm_compute. discriminate.
Defined.

(** C10. A click on a project link whose [href] attribute is exactly [#]
    calls [preventDefault] and shows the [info] notification: the element the
    call creates, of class [notification notification-info] and carrying the
    message of the project links, is attached to the document, and on a page
    with at most one notification it is afterwards the one notification
    attached. For every other [href], and for a link without the attribute,
    the listener does neither. *)
Theorem project_link_click (p : page) :
  project_link_listener (Some (lit "#")) p
    = (true, show_notification msg_project_links "info" p)
  /\ heap (snd (project_link_listener (Some (lit "#")) p)) !! next_id p
     = Some (Element "notification notification-info" msg_project_links
               "#ef4444" "translateX(100%)")
  /\ parentNode (next_id p) (snd (project_link_listener (Some (lit "#")) p))
     = true
  /\ (page_ok p ->
      notifications (snd (project_link_listener (Some (lit "#")) p))
      = [next_id p])
  /\ (forall href, href <> Some (lit "#") ->
        project_link_listener href p = (false, p)).
Proof.
  assert (E : project_link_listener (Some (lit "#")) p
              = (true, show_notification msg_project_links "info" p))
    by reflexivity.
  rewrite E. cbn [snd].
  split; [reflexivity |]. split; [apply shown_element |]. split; [|split].
  - apply parentNode_true. rewrite show_notification_eq. cbv zeta. simpl.
    apply elem_of_app. right. now apply list_elem_of_singleton.
  - intros [Hf Hlen]. now apply show_notification_slot.
  - intros href Hne. unfold project_link_listener.
    now rewrite bool_decide_eq_false_2.
Qed.

Lemma project_link_click_witness :
  notifications (snd (project_link_listener (Some (lit "#")) empty_page))
  = [0%nat]
  /\ project_link_listener (Some (lit "#about")) empty_page
     = (false, empty_page)
  /\ project_link_listener None empty_page = (false, empty_page).
Proof.
  destruct (project_link_click empty_page) as (_ & _ & _ & Hone & H).
  split; [exact (Hone page_ok_empty) |].
  split; apply H; discriminate.
Defined.
